(** * The Gujlish dataset tools: analysis and CSV export

    A shallow embedding of [analyze_gujlish_dataset.py] and [jsonToCSV.py].

    - A Python [str] is a [string]; its characters are read as the code
      points 0..255 (ASCII and the Latin-1 supplement), on which
      [str.lower], [str.isspace] and the regex class [\w] are tabulated as
      CPython has them.  Character-level algorithms work on [list ascii].
    - A Python [int] is a [Z]; a Python [float] is a primitive binary64
      [float].
    - A raised exception is an explicit [Raise] result.
    - The [Counter] of topics is a [gmap string Z].
    - [Process] reads the engine once more on the store of the running
      process, where the [Counter], the lists and the returned dict are
      objects at addresses, created and changed in place. *)

From Stdlib Require Import ZArith NArith List Ascii String Lia.
From Stdlib Require Import Floats.PrimFloat Numbers.Cyclic.Int63.Uint63.
From stdpp Require Import base option list gmap strings.

Local Open Scope Z_scope.

(** ** Exceptions *)

Inductive exn :=
| KeyError (key : string)
| ZeroDivisionError.

Inductive result (A : Type) :=
| Ok (a : A)
| Raise (e : exn).
Arguments Ok {A} a.
Arguments Raise {A} e.

Global Instance result_ret : MRet result := fun A a => Ok a.

Global Instance result_bind : MBind result := fun A B k r =>
  match r with
  | Ok a => k a
  | Raise e => Raise e
  end.

Global Instance result_fmap : FMap result := fun A B f r =>
  match r with
  | Ok a => Ok (f a)
  | Raise e => Raise e
  end.

(** [for x in xs: st = body st x], stopping at the first exception. *)
Fixpoint for_each {S A} (body : S -> A -> result S) (st : S) (xs : list A)
  : result S :=
  match xs with
  | [] => mret st
  | x :: xs' => st' ← body st x; for_each body st' xs'
  end.

(** [d[key]] on a key that may be absent. *)
Definition subscript {A} (key : string) (field : option A) : result A :=
  match field with
  | Some v => Ok v
  | None => Raise (KeyError key)
  end.

(** ** Python's [str] methods *)

Module PyStr.

Definition code (c : ascii) : N := N_of_ascii c.

Definition in_range (lo hi : N) (c : ascii) : bool :=
  ((lo <=? code c) && (code c <=? hi))%N.

Definition is_ascii_upper (c : ascii) : bool := in_range 65 90 c.
Definition is_ascii_lower (c : ascii) : bool := in_range 97 122 c.

(** The regex class [[a-zA-Z]]. *)
Definition is_ascii_letter (c : ascii) : bool :=
  is_ascii_upper c || is_ascii_lower c.

Definition is_digit (c : ascii) : bool := in_range 48 57 c.

(** [str.isspace] on one character: TAB, LF, VT, FF, CR, FS, GS, RS, US,
    space, NEL (133) and the no-break space (160). *)
Definition isspace (c : ascii) : bool :=
  in_range 9 13 c || in_range 28 32 c
  || (code c =? 133)%N || (code c =? 160)%N.

(** Membership in [string.punctuation]: the 32 characters
    ! .. / (33-47), : .. @ (58-64), [ .. ` (91-96) and { .. ~ (123-126). *)
Definition is_punctuation (c : ascii) : bool :=
  in_range 33 47 c || in_range 58 64 c
  || in_range 91 96 c || in_range 123 126 c.

(** The regex class [\w] of a [str] pattern: alphanumeric characters and
    the underscore.  Above ASCII these are the Latin-1 letters, the
    ordinal indicators, the micro sign, the superscript digits and the
    vulgar fractions. *)
Definition is_word_char (c : ascii) : bool :=
  is_ascii_letter c || is_digit c || (code c =? 95)%N
  || (code c =? 170)%N || in_range 178 179 c || (code c =? 181)%N
  || in_range 185 186 c || in_range 188 190 c
  || in_range 192 214 c || in_range 216 246 c || in_range 248 255 c.

(** [str.lower] on one character: A-Z and the Latin-1 capitals
    (192-222 except the multiplication sign 215) move up by 32. *)
Definition lower_char (c : ascii) : ascii :=
  if is_ascii_upper c || (in_range 192 222 c && negb (code c =? 215)%N)
  then ascii_of_N (code c + 32)
  else c.

Definition lower (s : list ascii) : list ascii := map lower_char s.

Fixpoint lstrip (s : list ascii) : list ascii :=
  match s with
  | c :: s' => if isspace c then lstrip s' else s
  | [] => []
  end.

Definition rstrip (s : list ascii) : list ascii := rev (lstrip (rev s)).

(** [str.strip()]: leading and trailing whitespace removed. *)
Definition strip (s : list ascii) : list ascii := rstrip (lstrip s).

(** [s.translate(str.maketrans('', '', deleted))]: the characters of
    [deleted] are dropped, every other character is kept. *)
Definition translate_delete (deleted : ascii -> bool) (s : list ascii)
  : list ascii :=
  List.filter (fun c => negb (deleted c)) s.

(** [str.split()] without arguments: the maximal runs of non-whitespace
    characters, in order.  [cur] is the token being read. *)
Definition flush (cur : list ascii) : list (list ascii) :=
  match cur with
  | [] => []
  | _ => [cur]
  end.

Fixpoint split_from (cur : list ascii) (s : list ascii)
  : list (list ascii) :=
  match s with
  | [] => flush cur
  | c :: s' =>
      if isspace c then flush cur ++ split_from [] s'
      else split_from (cur ++ [c]) s'
  end.

Definition split (s : list ascii) : list (list ascii) := split_from [] s.

End PyStr.

(** ** The regex [\b[a-zA-Z]+\b] under [re.findall] *)

Module Regex.
Import PyStr.

Definition is_word (c : option ascii) : bool :=
  match c with
  | Some c => is_word_char c
  | None => false
  end.

(** [\b] between the character before the position and the one after
    it ([None] at either end of the string): exactly one of the two is a
    word character. *)
Definition word_boundary (prev next : option ascii) : bool :=
  xorb (is_word prev) (is_word next).

(** The greedy [[a-zA-Z]+] has consumed up to [k] characters of [rest];
    the closing [\b] is tried after [k] characters, then after [k - 1],
    and so on down to one character. *)
Fixpoint backtrack (k : nat) (rest : list ascii) : option nat :=
  match k with
  | O => None
  | S k' =>
      if word_boundary (last (take k rest)) (head (drop k rest))
      then Some k
      else backtrack k' rest
  end.

Fixpoint letter_prefix (s : list ascii) : nat :=
  match s with
  | c :: s' => if is_ascii_letter c then S (letter_prefix s') else O
  | [] => O
  end.

(** One match attempt at a position: the length of the match, if any. *)
Definition match_here (prev : option ascii) (rest : list ascii)
  : option nat :=
  if word_boundary prev (head rest)
  then backtrack (letter_prefix rest) rest
  else None.

(** The scan of [re.findall]: try each position from left to right; after
    a match resume right behind it, otherwise move one character on. *)
Fixpoint findall_from (fuel : nat) (prev : option ascii)
    (rest : list ascii) : list (list ascii) :=
  match fuel with
  | O => []
  | S fuel' =>
      match match_here prev rest with
      | Some k =>
          take k rest :: findall_from fuel' (last (take k rest)) (drop k rest)
      | None =>
          match rest with
          | [] => []
          | c :: rest' => findall_from fuel' (Some c) rest'
          end
      end
  end.

(** One position per unit of fuel is enough: every step consumes at
    least one character. *)
Definition findall_at (prev : option ascii) (rest : list ascii)
  : list (list ascii) :=
  findall_from (S (length rest)) prev rest.

Definition findall (s : list ascii) : list (list ascii) :=
  findall_at None s.

End Regex.

(** ** analyze_gujlish_dataset.py *)

Definition chars (s : string) : list ascii := list_ascii_of_string s.

(** Lowercase, strip, then delete the punctuation, in the order of the
    source. *)
Definition normalize_text (text : string) : string :=
  let text := PyStr.strip (PyStr.lower (chars text)) in
  let text := PyStr.translate_delete PyStr.is_punctuation text in
  string_of_list_ascii text.

(** Following the docstring's words ("Lowercase, remove punctuation, and
    strip whitespace"): the same three steps with the trimming last. *)
Definition normalize_text_as_documented (text : string) : string :=
  let text := PyStr.lower (chars text) in
  let text := PyStr.translate_delete PyStr.is_punctuation text in
  string_of_list_ascii (PyStr.strip text).

Definition are_sentences_identical (gujlish english : string) : bool :=
  bool_decide (normalize_text gujlish = normalize_text english).

(** The loaded JSON document, typed by the schema of the dataset.  A field
    is [None] when its key is absent from the JSON object. *)
Record TurnRecord := {
  speaker : option string;
  gujlish : option string;
  english : option string
}.

Record TopicRecord := {
  topic : option string;
  conversations : option (list TurnRecord)
}.

(** *** Numbers *)

(** [float(z)], exact for [|z| <= 2^53]; beyond [2^63] the conversion
    through a 63-bit machine integer wraps around, which no word count of a
    string that fits in memory reaches. *)
Definition float_of_int (z : Z) : float :=
  if z <? 0 then PrimFloat.opp (PrimFloat.of_uint63 (Uint63.of_Z (- z)))
  else PrimFloat.of_uint63 (Uint63.of_Z z).

(** [a / b] on two ints. *)
Definition truediv (a b : Z) : result float :=
  if b =? 0 then Raise ZeroDivisionError
  else Ok (PrimFloat.div (float_of_int a) (float_of_int b)).

(** [x / n] on a float and an int. *)
Definition float_truediv (x : float) (n : Z) : result float :=
  if n =? 0 then Raise ZeroDivisionError
  else Ok (PrimFloat.div x (float_of_int n)).

(** [sum(xs)] as CPython up to 3.11 computes it: a left-to-right sum from
    zero.  From 3.12 on the builtin compensates the rounding errors of the
    additions, so the last bits of a sum of inexact terms can differ there.
    No statement below depends on the value of such a sum: the sums that
    are evaluated have exact terms, on which the two computations agree. *)
Definition sum (xs : list float) : float :=
  fold_left PrimFloat.add xs PrimFloat.zero.

Definition len {A} (xs : list A) : Z := Z.of_nat (length xs).

(** *** The local variables of [analyze_conversations] *)

Module Locals.
Record t := {
  total_sentences : Z;
  english_sentences : Z;
  gujlish_sentences : Z;
  topics : gmap string Z;
  identical_sentences : Z;
  eng_ratios : list float;
  guj_ratios : list float
}.

(** Lines 26-33. *)
Definition init : t := {|
  total_sentences := 0;
  english_sentences := 0;
  gujlish_sentences := 0;
  topics := ∅;
  identical_sentences := 0;
  eng_ratios := [];
  guj_ratios := []
|}.

(** [total_sentences += 1] *)
Definition count_sentence (st : t) : t := {|
  total_sentences := total_sentences st + 1;
  english_sentences := english_sentences st;
  gujlish_sentences := gujlish_sentences st;
  topics := topics st;
  identical_sentences := identical_sentences st;
  eng_ratios := eng_ratios st;
  guj_ratios := guj_ratios st
|}.

(** [identical_sentences += 1; english_sentences += 1] *)
Definition count_identical (st : t) : t := {|
  total_sentences := total_sentences st;
  english_sentences := english_sentences st + 1;
  gujlish_sentences := gujlish_sentences st;
  topics := topics st;
  identical_sentences := identical_sentences st + 1;
  eng_ratios := eng_ratios st;
  guj_ratios := guj_ratios st
|}.

(** [gujlish_sentences += 1] *)
Definition count_gujlish (st : t) : t := {|
  total_sentences := total_sentences st;
  english_sentences := english_sentences st;
  gujlish_sentences := gujlish_sentences st + 1;
  topics := topics st;
  identical_sentences := identical_sentences st;
  eng_ratios := eng_ratios st;
  guj_ratios := guj_ratios st
|}.

(** [topics[name] += 1] on a [Counter]: an absent key counts as 0. *)
Definition count_topic (name : string) (st : t) : t := {|
  total_sentences := total_sentences st;
  english_sentences := english_sentences st;
  gujlish_sentences := gujlish_sentences st;
  topics := <[name := default 0 (topics st !! name) + 1]> (topics st);
  identical_sentences := identical_sentences st;
  eng_ratios := eng_ratios st;
  guj_ratios := guj_ratios st
|}.

(** [eng_ratios.append(e); guj_ratios.append(g)] *)
Definition append_ratios (e g : float) (st : t) : t := {|
  total_sentences := total_sentences st;
  english_sentences := english_sentences st;
  gujlish_sentences := gujlish_sentences st;
  topics := topics st;
  identical_sentences := identical_sentences st;
  eng_ratios := eng_ratios st ++ [e];
  guj_ratios := guj_ratios st ++ [g]
|}.
End Locals.

(** The dict returned by [analyze_conversations]. *)
Record Statistics := {
  total_conversations : Z;
  total_sentences : Z;
  english_sentences : Z;
  gujlish_sentences : Z;
  identical_sentences : Z;
  topics : gmap string Z;
  language_mix_stats : list (float * float);
  avg_eng_ratio : float;
  avg_guj_ratio : float
}.

(** [len(gujlish_text.split())] *)
Definition total_words (gujlish_text : string) : Z :=
  len (PyStr.split (chars gujlish_text)).

(** [len(re.findall(r'\b[a-zA-Z]+\b', gujlish_text))] *)
Definition eng_words (gujlish_text : string) : Z :=
  len (Regex.findall (chars gujlish_text)).

(** Lines 38-55: the body of the inner loop. *)
Definition message_body (st : Locals.t) (message : TurnRecord)
  : result Locals.t :=
  let st := Locals.count_sentence st in
  gujlish_text ← subscript "gujlish" (gujlish message);
  english_text ← subscript "english" (english message);
  let st :=
    if are_sentences_identical gujlish_text english_text
    then Locals.count_identical st
    else Locals.count_gujlish st in
  let guj_words := total_words gujlish_text - eng_words gujlish_text in
  if 0 <? total_words gujlish_text then
    e ← truediv (eng_words gujlish_text) (total_words gujlish_text);
    g ← truediv guj_words (total_words gujlish_text);
    mret (Locals.append_ratios e g st)
  else mret st.

(** Lines 36-55: the body of the outer loop. *)
Definition conversation_body (st : Locals.t) (conversation : TopicRecord)
  : result Locals.t :=
  name ← subscript "topic" (topic conversation);
  let st := Locals.count_topic name st in
  messages ← subscript "conversations" (conversations conversation);
  for_each message_body st messages.

(** [sum(ratios) / len(ratios) if ratios else 0]; the integer 0 of the
    empty case is the float zero here. *)
Definition average (ratios : list float) : result float :=
  match ratios with
  | [] => mret PrimFloat.zero
  | _ => float_truediv (sum ratios) (len ratios)
  end.

(** Lines 57-70. *)
Definition summarize (data : list TopicRecord) (st : Locals.t)
  : result Statistics :=
  avg_eng ← average (Locals.eng_ratios st);
  avg_guj ← average (Locals.guj_ratios st);
  mret {|
    total_conversations := len data;
    total_sentences := Locals.total_sentences st;
    english_sentences := Locals.english_sentences st;
    gujlish_sentences := Locals.gujlish_sentences st;
    identical_sentences := Locals.identical_sentences st;
    topics := Locals.topics st;
    language_mix_stats := zip (Locals.eng_ratios st) (Locals.guj_ratios st);
    avg_eng_ratio := avg_eng;
    avg_guj_ratio := avg_guj
  |}.

Definition analyze_conversations (data : list TopicRecord)
  : result Statistics :=
  st ← for_each conversation_body Locals.init data;
  summarize data st.

(** *** The objects of a run

    The engine read on the store of the running process.  The [Counter]
    and the two lists are objects that [analyze_conversations] creates
    (lines 29, 32, 33) and then changes in place; the dict it returns refers
    to the [Counter] itself and to the list that [list(zip(...))] creates.
    The store is what one invocation leaves to the next.  The function makes
    no assignment into [data], which is passed as a value here. *)

Module Process.

Abbreviation address := nat.

(** The dict of lines 60-70: its numbers, and the addresses of the two
    objects it refers to. *)
Record stats_dict := {
  at_total_conversations : Z;
  at_total_sentences : Z;
  at_english_sentences : Z;
  at_gujlish_sentences : Z;
  at_identical_sentences : Z;
  at_topics : address;
  at_language_mix_stats : address;
  at_avg_eng_ratio : float;
  at_avg_guj_ratio : float
}.

Inductive object :=
| CounterObject (counts : gmap string Z)
| FloatList (items : list float)
| PairList (items : list (float * float))
| StatsDict (d : stats_dict).

(** The objects alive in the process, by address. *)
Abbreviation heap := (list object).

(** A computation on the store that returns or raises. *)
Definition run (A : Type) : Type := heap -> result A * heap.

Definition ret {A} (a : A) : run A := fun h => (Ok a, h).

Definition bind {A B} (m : run A) (k : A -> run B) : run B := fun h =>
  match m h with
  | (Ok a, h') => k a h'
  | (Raise e, h') => (Raise e, h')
  end.

(** A step that does not touch the store. *)
Definition lift {A} (r : result A) : run A := fun h => (r, h).

(** A new object, at an address not in use. *)
Definition allocate (o : object) : run address := fun h =>
  (Ok (length h), h ++ [o]).

(** A change of the object at [a], in place. *)
Definition update (f : object -> object) (a : address) : run unit := fun h =>
  (Ok tt, alter f a h).

(** [counter[name] += 1] *)
Definition counter_add (name : string) (o : object) : object :=
  match o with
  | CounterObject counts =>
      CounterObject (<[name := default 0 (counts !! name) + 1]> counts)
  | _ => o
  end.

(** [items.append(x)] *)
Definition list_append (x : float) (o : object) : object :=
  match o with
  | FloatList items => FloatList (items ++ [x])
  | _ => o
  end.

(** The items of the list at [a]. *)
Definition read_floats (a : address) : run (list float) := fun h =>
  (Ok match h !! a with
      | Some (FloatList items) => items
      | _ => []
      end, h).

(** The local variables: numbers, and the addresses that the names
    [topics], [eng_ratios] and [guj_ratios] are bound to. *)
Module Frame.
Record t := {
  total_sentences : Z;
  english_sentences : Z;
  gujlish_sentences : Z;
  topics : address;
  identical_sentences : Z;
  eng_ratios : address;
  guj_ratios : address
}.

Definition init (topics eng_ratios guj_ratios : address) : t := {|
  total_sentences := 0;
  english_sentences := 0;
  gujlish_sentences := 0;
  topics := topics;
  identical_sentences := 0;
  eng_ratios := eng_ratios;
  guj_ratios := guj_ratios
|}.

Definition count_sentence (fr : t) : t := {|
  total_sentences := total_sentences fr + 1;
  english_sentences := english_sentences fr;
  gujlish_sentences := gujlish_sentences fr;
  topics := topics fr;
  identical_sentences := identical_sentences fr;
  eng_ratios := eng_ratios fr;
  guj_ratios := guj_ratios fr
|}.

Definition count_identical (fr : t) : t := {|
  total_sentences := total_sentences fr;
  english_sentences := english_sentences fr + 1;
  gujlish_sentences := gujlish_sentences fr;
  topics := topics fr;
  identical_sentences := identical_sentences fr + 1;
  eng_ratios := eng_ratios fr;
  guj_ratios := guj_ratios fr
|}.

Definition count_gujlish (fr : t) : t := {|
  total_sentences := total_sentences fr;
  english_sentences := english_sentences fr;
  gujlish_sentences := gujlish_sentences fr + 1;
  topics := topics fr;
  identical_sentences := identical_sentences fr;
  eng_ratios := eng_ratios fr;
  guj_ratios := guj_ratios fr
|}.
End Frame.

Fixpoint for_each {S A} (body : S -> A -> run S) (st : S) (xs : list A)
  : run S :=
  match xs with
  | [] => ret st
  | x :: xs' => bind (body st x) (fun st' => for_each body st' xs')
  end.

(** Lines 38-55. *)
Definition message_body (fr : Frame.t) (message : TurnRecord)
  : run Frame.t :=
  let fr := Frame.count_sentence fr in
  bind (lift (subscript "gujlish" (gujlish message))) (fun gujlish_text =>
  bind (lift (subscript "english" (english message))) (fun english_text =>
  let fr :=
    if are_sentences_identical gujlish_text english_text
    then Frame.count_identical fr
    else Frame.count_gujlish fr in
  let guj_words := total_words gujlish_text - eng_words gujlish_text in
  if 0 <? total_words gujlish_text then
    bind (lift (truediv (eng_words gujlish_text) (total_words gujlish_text)))
      (fun e =>
    bind (update (list_append e) (Frame.eng_ratios fr)) (fun _ =>
    bind (lift (truediv guj_words (total_words gujlish_text))) (fun g =>
    bind (update (list_append g) (Frame.guj_ratios fr)) (fun _ =>
    ret fr))))
  else ret fr)).

(** Lines 36-55. *)
Definition conversation_body (fr : Frame.t) (conversation : TopicRecord)
  : run Frame.t :=
  bind (lift (subscript "topic" (topic conversation))) (fun name =>
  bind (update (counter_add name) (Frame.topics fr)) (fun _ =>
  bind (lift (subscript "conversations" (conversations conversation)))
    (fun messages =>
  for_each message_body fr messages))).

(** Lines 25-70: the three objects are created, the loops change them in
    place, and the returned dict is a new object that refers to the
    [Counter] and to a new list of pairs. *)
Definition analyze_conversations (data : list TopicRecord) : run address :=
  bind (allocate (CounterObject ∅)) (fun topics =>
  bind (allocate (FloatList [])) (fun eng_ratios =>
  bind (allocate (FloatList [])) (fun guj_ratios =>
  bind (for_each conversation_body
          (Frame.init topics eng_ratios guj_ratios) data) (fun fr =>
  bind (read_floats (Frame.eng_ratios fr)) (fun eng_items =>
  bind (lift (average eng_items)) (fun avg_eng_ratio =>
  bind (read_floats (Frame.guj_ratios fr)) (fun guj_items =>
  bind (lift (average guj_items)) (fun avg_guj_ratio =>
  bind (read_floats (Frame.eng_ratios fr)) (fun eng_items =>
  bind (read_floats (Frame.guj_ratios fr)) (fun guj_items =>
  bind (allocate (PairList (zip eng_items guj_items))) (fun pairs =>
  allocate (StatsDict {|
    at_total_conversations := len data;
    at_total_sentences := Frame.total_sentences fr;
    at_english_sentences := Frame.english_sentences fr;
    at_gujlish_sentences := Frame.gujlish_sentences fr;
    at_identical_sentences := Frame.identical_sentences fr;
    at_topics := Frame.topics fr;
    at_language_mix_stats := pairs;
    at_avg_eng_ratio := avg_eng_ratio;
    at_avg_guj_ratio := avg_guj_ratio
  |})))))))))))).

(** What a caller that holds the result of a run sees in the store [h]:
    the exception, or the contents of the dict and of the two objects it
    refers to ([None] if an address does not hold such an object). *)
Definition observe (h : heap) (r : result address)
  : option (result Statistics) :=
  match r with
  | Raise e => Some (Raise e)
  | Ok a =>
      match h !! a with
      | Some (StatsDict d) =>
          match h !! at_topics d, h !! at_language_mix_stats d with
          | Some (CounterObject counts), Some (PairList pairs) =>
              Some (Ok {|
                total_conversations := at_total_conversations d;
                total_sentences := at_total_sentences d;
                english_sentences := at_english_sentences d;
                gujlish_sentences := at_gujlish_sentences d;
                identical_sentences := at_identical_sentences d;
                topics := counts;
                language_mix_stats := pairs;
                avg_eng_ratio := at_avg_eng_ratio d;
                avg_guj_ratio := at_avg_guj_ratio d
              |})
          | _, _ => None
          end
      | _ => None
      end
  end.

(** The frame [fr] and the store [h] hold what the locals [st] of the
    value reading hold; the three objects lie at distinct addresses from
    [base] on. *)
Definition represents (base : nat) (h : heap) (fr : Frame.t)
    (st : Locals.t) : Prop :=
  Frame.total_sentences fr = Locals.total_sentences st
  /\ Frame.english_sentences fr = Locals.english_sentences st
  /\ Frame.gujlish_sentences fr = Locals.gujlish_sentences st
  /\ Frame.identical_sentences fr = Locals.identical_sentences st
  /\ h !! Frame.topics fr = Some (CounterObject (Locals.topics st))
  /\ h !! Frame.eng_ratios fr = Some (FloatList (Locals.eng_ratios st))
  /\ h !! Frame.guj_ratios fr = Some (FloatList (Locals.guj_ratios st))
  /\ (base <= Frame.topics fr)%nat
  /\ (base <= Frame.eng_ratios fr)%nat
  /\ (base <= Frame.guj_ratios fr)%nat
  /\ Frame.topics fr <> Frame.eng_ratios fr
  /\ Frame.topics fr <> Frame.guj_ratios fr
  /\ Frame.eng_ratios fr <> Frame.guj_ratios fr.

(** The outcome on the store and the outcome on values agree. *)
Definition agrees (base : nat) (h : heap) (r : result Frame.t)
    (r' : result Locals.t) : Prop :=
  match r, r' with
  | Ok fr, Ok st => represents base h fr st
  | Raise e, Raise e' => e = e'
  | _, _ => False
  end.

(** No object is created or freed, and the objects below [base] are as
    they were. *)
Definition keeps (base : nat) (h h' : heap) : Prop :=
  length h' = length h /\ take base h' = take base h.

End Process.

(** *** The invariant of the counters *)

Definition counts_add_up (st : Locals.t) : Prop :=
  Locals.english_sentences st + Locals.gujlish_sentences st
  = Locals.total_sentences st
  /\ Locals.identical_sentences st = Locals.english_sentences st.

(** *** Inputs on which no key is missing *)

Definition turn_complete (message : TurnRecord) : bool :=
  bool_decide (is_Some (gujlish message))
  && bool_decide (is_Some (english message)).

Definition topic_complete (conversation : TopicRecord) : bool :=
  bool_decide (is_Some (topic conversation))
  && match conversations conversation with
     | Some messages => forallb turn_complete messages
     | None => false
     end.

Definition document_complete (data : list TopicRecord) : bool :=
  forallb topic_complete data.

(** *** Runs of ASCII letters

    Following the spec's words: the maximal contiguous runs of [A-Za-z]
    characters of a string, each with the character just before it and the
    character just after it ([None] at the ends of the string). *)

Module Runs.
Import PyStr.

Record run := {
  before : option ascii;
  letters : list ascii;
  after : option ascii
}.

Definition close (before : option ascii) (cur : list ascii)
    (after : option ascii) : list run :=
  match cur with
  | [] => []
  | _ => [{| before := before; letters := cur; after := after |}]
  end.

(** [cur] is the run being read and [before] the last character in
    front of it. *)
Fixpoint scan (before : option ascii) (cur : list ascii) (s : list ascii)
  : list run :=
  match s with
  | [] => close before cur None
  | c :: s' =>
      if is_ascii_letter c then scan before (cur ++ [c]) s'
      else close before cur (Some c) ++ scan (Some c) [] s'
  end.

Definition letter_runs (s : list ascii) : list run := scan None [] s.

Definition all_letters (ls : list ascii) : Prop :=
  Forall (fun c => is_ascii_letter c = true) ls.

(** [tail] does not go on with a letter. *)
Definition stops (tail : list ascii) : Prop :=
  forall c, head tail = Some c -> is_ascii_letter c = false.

(** A run is delimited when neither neighbour is a word character: the
    two [\b] of the pattern hold at its ends. *)
Definition delimited (r : run) : bool :=
  negb (Regex.is_word (before r)) && negb (Regex.is_word (after r)).
End Runs.

(** ** jsonToCSV.py *)

Module Csv.

(** What [json.load] under the [try] gives. *)
Inductive loaded :=
| Document (raw_data : list TopicRecord)
| FileNotFoundError
| JSONDecodeError.

(** The dict built for one turn. *)
Record turn_data := {
  turn_id : Z;
  row_topic : string;
  row_speaker : option string;
  row_gujlish : option string;
  row_english : option string
}.

(** A [pandas.DataFrame]: the column names and the rows. *)
Record DataFrame := {
  columns : list string;
  rows : list turn_data
}.

Inductive report :=
| JsonNotFound
| JsonNotDecoded
| NoConversationData
| Converted
| CsvNotWritten.

(** What a call does to the outside: lines printed and files written. *)
Inductive event :=
| Printed (r : report)
| ToCsv (df : DataFrame).

(** Lines 32-41, on the pair of [all_conversation_turns] and
    [turn_id_counter]. *)
Definition turn_body (topic_name : string)
    (st : list turn_data * Z) (conv_turn : TurnRecord)
  : list turn_data * Z :=
  let turn_id_counter := st.2 + 1 in
  (st.1 ++ [{| turn_id := turn_id_counter;
               row_topic := topic_name;
               row_speaker := speaker conv_turn;
               row_gujlish := gujlish conv_turn;
               row_english := english conv_turn |}],
   turn_id_counter).

(** Lines 28-41. *)
Definition topic_body (st : list turn_data * Z) (topic_data : TopicRecord)
  : list turn_data * Z :=
  let topic_name := default "Unknown Topic"%string (topic topic_data) in
  let conversations := default [] (conversations topic_data) in
  fold_left (turn_body topic_name) conversations st.

Definition collect_turns (raw_data : list TopicRecord) : list turn_data :=
  (fold_left topic_body raw_data ([], 0)).1.

(** [pd.DataFrame(all_conversation_turns)]: the columns are the keys of
    the dicts, in insertion order. *)
Definition data_frame (all_conversation_turns : list turn_data)
  : DataFrame :=
  {| columns := ["turn_id"; "topic"; "speaker"; "gujlish"; "english"]%string;
     rows := all_conversation_turns |}.

(** [disk_ok] tells whether [df.to_csv] succeeds. *)
Definition json_to_csv_pandas (file : loaded) (disk_ok : bool)
  : list event :=
  match file with
  | FileNotFoundError => [Printed JsonNotFound]
  | JSONDecodeError => [Printed JsonNotDecoded]
  | Document raw_data =>
      match collect_turns raw_data with
      | [] => [Printed NoConversationData]
      | all_conversation_turns =>
          if disk_ok
          then [ToCsv (data_frame all_conversation_turns); Printed Converted]
          else [Printed CsvNotWritten]
      end
  end.

(** Following the spec's words: the turns of the flattened document, each
    with the name of its topic, in input order. *)
Definition flatten (raw_data : list TopicRecord)
  : list (string * TurnRecord) :=
  concat (map (fun t =>
                 map (pair (default "Unknown Topic"%string (topic t)))
                     (default [] (conversations t)))
              raw_data).

(** The row of the turn at (0-based) position [k] of the flattened
    document. *)
Definition numbered_row (k : nat) (turn : string * TurnRecord)
  : turn_data :=
  {| turn_id := Z.of_nat k + 1;
     row_topic := turn.1;
     row_speaker := speaker turn.2;
     row_gujlish := gujlish turn.2;
     row_english := english turn.2 |}.

Definition turn_count (raw_data : list TopicRecord) : nat :=
  length (flatten raw_data).

End Csv.

(** The same export with the [csv] module (lines 58-104). *)

Module CsvManual.

Inductive report :=
| JsonNotFound
| JsonNotDecoded
| Converted
| CsvNotWritten.

(** Lines printed, and the file left behind: its header row and its data
    rows. *)
Inductive event :=
| Printed (r : report)
| Wrote (header : list string) (data_rows : list Csv.turn_data).

(** Line 78. *)
Definition headers : list string :=
  ["turn_id"; "topic"; "speaker"; "gujlish"; "english"]%string.

(** Lines 79 and 86-99: the two loops of the pandas variant, with
    [writer.writerow] in place of [append]; the rows written so far and
    [turn_id_counter] are the state. *)
Definition written_rows (raw_data : list TopicRecord)
  : list Csv.turn_data :=
  (fold_left Csv.topic_body raw_data ([], 0)).1.

(** [disk_ok] tells whether the file can be opened and written. *)
Definition json_to_csv_manual (file : Csv.loaded) (disk_ok : bool)
  : list event :=
  match file with
  | Csv.FileNotFoundError => [Printed JsonNotFound]
  | Csv.JSONDecodeError => [Printed JsonNotDecoded]
  | Csv.Document raw_data =>
      if disk_ok
      then [Wrote headers (written_rows raw_data); Printed Converted]
      else [Printed CsvNotWritten]
  end.

End CsvManual.

(** *** Reading the rows back *)

(** The topic name and the turn that a row carries. *)
Definition turn_of_row (r : Csv.turn_data) : string * TurnRecord :=
  (Csv.row_topic r,
   {| speaker := Csv.row_speaker r;
      gujlish := Csv.row_gujlish r;
      english := Csv.row_english r |}).

(** A row with its [turn_id] moved up by [offset]. *)
Definition renumber (offset : Z) (r : Csv.turn_data) : Csv.turn_data :=
  {| Csv.turn_id := Csv.turn_id r + offset;
     Csv.row_topic := Csv.row_topic r;
     Csv.row_speaker := Csv.row_speaker r;
     Csv.row_gujlish := Csv.row_gujlish r;
     Csv.row_english := Csv.row_english r |}.

(** ** The report of [main] *)

(** [part / total * 100], as in the f-strings of lines 132-133. *)
Definition percentage (part total : Z) : result float :=
  q ← truediv part total;
  mret (PrimFloat.mul q 100).

(** The numbers that [main] prints in lines 128-137 and 143, before the
    formatting of the f-strings. *)
Record printed_report := {
  shown_total_conversations : Z;
  shown_total_sentences : Z;
  shown_english : Z * float;
  shown_gujlish : Z * float;
  shown_avg_eng : float;
  shown_avg_guj : float;
  shown_identical : Z
}.

(** Lines 125-143 on the loaded data: the statistics, then the two
    percentages, then the averages as percentages.  The listing of the five
    most common topics and the plots are not part of this reading. *)
Definition main (data : list TopicRecord) : result printed_report :=
  stats ← analyze_conversations data;
  english_share ←
    percentage (english_sentences stats) (total_sentences stats);
  gujlish_share ←
    percentage (gujlish_sentences stats) (total_sentences stats);
  mret {| shown_total_conversations := total_conversations stats;
          shown_total_sentences := total_sentences stats;
          shown_english := (english_sentences stats, english_share);
          shown_gujlish := (gujlish_sentences stats, gujlish_share);
          shown_avg_eng := PrimFloat.mul (avg_eng_ratio stats) 100;
          shown_avg_guj := PrimFloat.mul (avg_guj_ratio stats) 100;
          shown_identical := identical_sentences stats |}.

(** ** What the statistics count *)

(** The turns of a document, in input order. *)
Definition all_turns (data : list TopicRecord) : list TurnRecord :=
  concat (map (fun c => default [] (conversations c)) data).

(** The turn's two texts normalize to the same string. *)
Definition turn_identical (message : TurnRecord) : bool :=
  match gujlish message, english message with
  | Some g, Some e => are_sentences_identical g e
  | _, _ => false
  end.

(** The ratio pair of a turn whose mixed text has a token. *)
Definition turn_pair (message : TurnRecord) : option (float * float) :=
  match gujlish message with
  | Some g =>
      if 0 <? total_words g
      then Some (PrimFloat.div (float_of_int (eng_words g))
                               (float_of_int (total_words g)),
                 PrimFloat.div (float_of_int (total_words g - eng_words g))
                               (float_of_int (total_words g)))
      else None
  | None => None
  end.

(** The topic objects that carry the name [name]. *)
Definition named (name : string) (data : list TopicRecord)
  : list TopicRecord :=
  List.filter (fun c => bool_decide (topic c = Some name)) data.

(** Every topic in the counter has been seen at least once. *)
Definition counts_positive (st : Locals.t) : Prop :=
  map_Forall (fun _ v => 0 < v) (Locals.topics st).

(** The four keys that the engine subscripts. *)
Definition is_dataset_key (e : exn) : bool :=
  match e with
  | KeyError key =>
      bool_decide (key ∈ ["topic"; "conversations"; "gujlish"; "english"]%string)
  | ZeroDivisionError => false
  end.

(** Whitespace or a word character: the characters around which the two
    tokenizations of a mixed text cannot disagree. *)
Definition space_or_word (c : ascii) : bool :=
  PyStr.isspace c || PyStr.is_word_char c.

Definition space_or_letter (c : ascii) : bool :=
  PyStr.isspace c || PyStr.is_ascii_letter c.

(** ** Sample documents *)

Definition turn (g e : string) : TurnRecord :=
  {| speaker := Some "A"%string; gujlish := Some g; english := Some e |}.

Definition one_topic (messages : list TurnRecord) : list TopicRecord :=
  [{| topic := Some "Food"%string; conversations := Some messages |}].

(** A turn object without its text keys. *)
Definition bare_turn : TurnRecord :=
  {| speaker := Some "A"%string; gujlish := None; english := None |}.

Definition two_topics : list TopicRecord :=
  [{| topic := Some "Food"%string;
      conversations := Some [turn "Mane ek coffee joie" "I want a coffee";
                             turn "Thank you!" "thank you"] |};
   {| topic := None;
      conversations := Some [bare_turn] |}].

Definition cafe_talk : list TopicRecord :=
  one_topic [turn "Mane ek coffee joie" "I want a coffee";
             turn "Thank you!" "thank you"].

Definition cafe_stats : Statistics :=
  {| total_conversations := 1;
     total_sentences := 2;
     english_sentences := 1;
     gujlish_sentences := 1;
     identical_sentences := 1;
     topics := {["Food"%string := 1]};
     language_mix_stats := [(1, 0); (1, 0)]%float;
     avg_eng_ratio := 1%float;
     avg_guj_ratio := 0%float |}.

(** Topics without any turn. *)
Definition no_turns : list TopicRecord :=
  [{| topic := Some "Food"%string; conversations := Some [] |};
   {| topic := Some "Travel"%string; conversations := None |}].

(** A document whose keys are all there but which has no turn. *)
Definition silent_topics : list TopicRecord :=
  [{| topic := Some "Food"%string; conversations := Some [] |};
   {| topic := Some "Travel"%string; conversations := Some [] |}].

(** One topic name used twice. *)
Definition market_talk : list TopicRecord :=
  [{| topic := Some "Food"%string;
      conversations := Some [turn "Mane ek coffee joie" "I want a coffee";
                             turn "   " "";
                             turn "Thank you!" "thank you"] |};
   {| topic := Some "Travel"%string;
      conversations := Some [turn "ok" "OK."] |};
   {| topic := Some "Food"%string; conversations := Some [] |}].

(** Turns whose mixed texts have no token. *)
Definition blank_talk : list TopicRecord :=
  one_topic [turn "   " "hello"; turn "" ""].

(** * Properties *)

(** ** The monad of results *)

(** A loop invariant kept by the body is kept by the loop. *)
Lemma for_each_invariant {S A} (P : S -> Prop) (body : S -> A -> result S) :
  (forall st x st', P st -> body st x = Ok st' -> P st') ->
  forall xs st st', P st -> for_each body st xs = Ok st' -> P st'.
Proof.
  intros Hbody. induction xs as [|x xs IH]; intros st st' HP; simpl.
  - intros [= <-]. exact HP.
  - destruct (body st x) as [st1|e] eqn:Hx; simpl; [|discriminate].
    apply IH. eapply Hbody; eauto.
Qed.

(** ** Characters and strings *)

Ltac each_char c :=
  destruct c as [[] [] [] [] [] [] [] []]; try reflexivity; try discriminate.

Lemma letter_is_word c :
  PyStr.is_ascii_letter c = true -> PyStr.is_word_char c = true.
Proof. unfold PyStr.is_word_char. intros ->. reflexivity. Qed.

Lemma lower_char_not_upper c :
  PyStr.is_ascii_upper (PyStr.lower_char c) = false.
Proof. each_char c. Qed.

Lemma chars_string_of_list l : chars (string_of_list_ascii l) = l.
Proof. apply list_ascii_of_string_of_list_ascii. Qed.

Lemma in_lstrip c s : In c (PyStr.lstrip s) -> In c s.
Proof.
  induction s as [|d s IH]; simpl; [done|].
  destruct (PyStr.isspace d); [|done]. intros H. right. auto.
Qed.

Lemma in_strip c s : In c (PyStr.strip s) -> In c s.
Proof.
  unfold PyStr.strip, PyStr.rstrip. intros H.
  apply in_lstrip. apply in_rev. apply in_lstrip. apply in_rev in H. exact H.
Qed.

(** The part of the normalizer's contract that the code keeps: the result
    has no uppercase ASCII letter and no ASCII punctuation. *)
Lemma normalize_text_no_upper_no_punctuation text c :
  In c (chars (normalize_text text)) ->
  PyStr.is_ascii_upper c = false /\ PyStr.is_punctuation c = false.
Proof.
  unfold normalize_text, PyStr.translate_delete.
  rewrite chars_string_of_list. intros H.
  apply filter_In in H as [H Hp]. split.
  - apply in_strip in H. unfold PyStr.lower in H.
    apply in_map_iff in H as (d & <- & _). apply lower_char_not_upper.
  - by apply negb_true_iff in Hp.
Qed.

(** C2: on the input [". a"] the normalizer returns [" a"]: the space that
    followed the deleted full stop is now a leading space, because the
    punctuation is deleted after the whitespace has been trimmed. *)
Theorem normalize_text_leaves_leading_space :
  normalize_text ". a" = " a"%string
  /\ head (chars (normalize_text ". a")) = Some " "%char
  /\ PyStr.isspace " "%char = true
  /\ normalize_text "Hello !" = "hello "%string
  /\ normalize_text_as_documented ". a" = "a"%string
  /\ are_sentences_identical "Hello !" "hello" = false.
Proof. repeat split. Qed.

(** ** The regex scan and the runs of letters *)

Section RegexFacts.
Import PyStr Regex Runs.

Lemma stops_nil : stops [].
Proof. intros c [=]. Qed.

Lemma stops_cons c tail : is_ascii_letter c = false -> stops (c :: tail).
Proof. intros H d [= <-]. exact H. Qed.

Lemma letter_prefix_app ls tail :
  all_letters ls -> stops tail -> letter_prefix (ls ++ tail) = length ls.
Proof.
  intros Hls Htail. induction Hls as [|c ls Hc _ IH]; simpl.
  - destruct tail as [|d tail]; simpl; [done|].
    by rewrite (Htail d eq_refl).
  - by rewrite Hc, IH.
Qed.

Lemma letter_prefix_le s : (letter_prefix s <= length s)%nat.
Proof.
  induction s as [|c s IH]; simpl; [lia|].
  destruct (is_ascii_letter c); simpl; lia.
Qed.

(** Every string is a run of letters followed by a tail that stops. *)
Lemma letters_then_tail s :
  exists ls tail, s = ls ++ tail /\ all_letters ls /\ stops tail.
Proof.
  induction s as [|c s (ls & tail & -> & Hls & Htail)].
  - exists [], []. repeat split; [constructor | apply stops_nil].
  - destruct (is_ascii_letter c) eqn:Hc.
    + exists (c :: ls), tail. repeat split; [by constructor | done].
    + exists [], (c :: ls ++ tail).
      repeat split; [constructor | by apply stops_cons].
Qed.

Lemma is_word_letter ls j c :
  all_letters ls -> ls !! j = Some c -> is_word (ls !! j) = true.
Proof.
  intros Hls Hj. rewrite Hj. simpl. apply letter_is_word.
  eapply Forall_lookup_1 in Hls; eauto.
Qed.

(** Inside a run of letters there is no word boundary. *)
Lemma no_boundary_inside ls tail j :
  all_letters ls -> (0 < j < length ls)%nat ->
  word_boundary (last (take j (ls ++ tail))) (head (drop j (ls ++ tail)))
  = false.
Proof.
  intros Hls Hj. unfold word_boundary.
  rewrite take_app_le by lia.
  rewrite last_lookup, length_take_le by lia.
  rewrite lookup_take_lt by lia.
  rewrite head_lookup, lookup_drop, Nat.add_0_r.
  rewrite lookup_app_l by lia.
  destruct (lookup_lt_is_Some_2 ls (pred j)) as [c Hc]; [lia|].
  destruct (lookup_lt_is_Some_2 ls j) as [d Hd]; [lia|].
  by rewrite (is_word_letter ls _ c), (is_word_letter ls _ d).
Qed.

Lemma backtrack_inside ls tail k :
  all_letters ls -> (k < length ls)%nat -> backtrack k (ls ++ tail) = None.
Proof.
  intros Hls. induction k as [|k IH]; intros Hk; [done|].
  cbn [backtrack]. rewrite no_boundary_inside by (done || lia).
  apply IH. lia.
Qed.

Lemma last_letter_is_word ls :
  all_letters ls -> ls <> [] -> is_word (last ls) = true.
Proof.
  intros Hls Hne. rewrite last_lookup.
  destruct (lookup_lt_is_Some_2 ls (pred (length ls))) as [c Hc].
  - destruct ls; [done | simpl; lia].
  - by eapply is_word_letter.
Qed.

(** The greedy match with backtracking takes the whole run or nothing. *)
Lemma backtrack_run ls tail :
  all_letters ls -> ls <> [] ->
  backtrack (length ls) (ls ++ tail)
  = if negb (is_word (head tail)) then Some (length ls) else None.
Proof.
  intros Hls Hne. destruct (length ls) as [|k] eqn:Hlen.
  { by destruct ls. }
  cbn [backtrack]. rewrite <- Hlen.
  rewrite take_app_length, drop_app_length. unfold word_boundary.
  rewrite last_letter_is_word by done. simpl.
  destruct (is_word (head tail)); simpl; [|done].
  apply backtrack_inside; [done | lia].
Qed.

Lemma match_here_run prev ls tail :
  all_letters ls -> ls <> [] -> stops tail ->
  match_here prev (ls ++ tail)
  = if negb (is_word prev) && negb (is_word (head tail))
    then Some (length ls) else None.
Proof.
  intros Hls Hne Htail. unfold match_here.
  rewrite letter_prefix_app, backtrack_run by done.
  unfold word_boundary. destruct ls as [|c ls]; [done|].
  simpl head. simpl is_word at 2.
  rewrite letter_is_word by (by inversion Hls).
  destruct (is_word prev), (is_word (head tail)); done.
Qed.

Lemma match_here_stops prev rest : stops rest -> match_here prev rest = None.
Proof.
  intros Hrest. unfold match_here.
  pose proof (letter_prefix_app [] rest ltac:(constructor) Hrest) as Hp.
  simpl in Hp. rewrite Hp. simpl.
  by destruct (word_boundary _ _).
Qed.

Lemma backtrack_bounds k rest j :
  backtrack k rest = Some j -> (0 < j <= k)%nat.
Proof.
  induction k as [|k IH]; [done|]. cbn [backtrack].
  destruct (word_boundary _ _); [intros [= <-]; lia|].
  intros H. apply IH in H. lia.
Qed.

Lemma match_here_bounds prev rest k :
  match_here prev rest = Some k -> (0 < k <= length rest)%nat.
Proof.
  unfold match_here. destruct (word_boundary _ _); [|done].
  intros H. apply backtrack_bounds in H.
  pose proof (letter_prefix_le rest). lia.
Qed.

(** More fuel than characters changes nothing. *)
Lemma findall_from_fuel n m prev rest :
  (length rest < n)%nat -> (length rest < m)%nat ->
  findall_from n prev rest = findall_from m prev rest.
Proof.
  revert m prev rest. induction n as [|n IH]; intros m prev rest Hn Hm.
  { lia. }
  destruct m as [|m]; [lia|]. cbn [findall_from].
  destruct (match_here prev rest) as [k|] eqn:Hk.
  - apply match_here_bounds in Hk. f_equal.
    apply IH; rewrite length_drop; lia.
  - destruct rest as [|c rest]; [done|]. apply IH; simpl in *; lia.
Qed.

Lemma findall_from_step fuel prev rest :
  findall_from (S fuel) prev rest
  = match match_here prev rest with
    | Some k =>
        take k rest :: findall_from fuel (last (take k rest)) (drop k rest)
    | None =>
        match rest with
        | [] => []
        | c :: rest' => findall_from fuel (Some c) rest'
        end
    end.
Proof. reflexivity. Qed.

Lemma findall_at_nil prev : findall_at prev [] = [].
Proof.
  unfold findall_at. rewrite findall_from_step. unfold match_here.
  cbn [letter_prefix backtrack]. by destruct (word_boundary _ _).
Qed.

Lemma findall_at_skip prev c rest :
  match_here prev (c :: rest) = None ->
  findall_at prev (c :: rest) = findall_at (Some c) rest.
Proof.
  intros H. unfold findall_at. by rewrite findall_from_step, H.
Qed.

Lemma findall_at_match prev rest k :
  match_here prev rest = Some k ->
  findall_at prev rest
  = take k rest :: findall_at (last (take k rest)) (drop k rest).
Proof.
  intros H. unfold findall_at. rewrite findall_from_step, H. f_equal.
  apply match_here_bounds in H.
  apply findall_from_fuel; rewrite length_drop; lia.
Qed.

(** A position behind a letter and inside the run matches nothing: the
    scan walks to the end of the run. *)
Lemma findall_at_inside p ls tail :
  is_ascii_letter p = true -> all_letters ls -> stops tail ->
  findall_at (Some p) (ls ++ tail) = findall_at (last (p :: ls)) tail.
Proof.
  intros Hp Hls. revert p Hp.
  induction Hls as [|c ls Hc _ IH]; intros p Hp Htail; [done|].
  rewrite last_cons_cons. rewrite <- IH by done.
  apply findall_at_skip. unfold match_here, word_boundary. simpl.
  by rewrite !letter_is_word.
Qed.

Lemma scan_letters b cur ls tail :
  all_letters ls -> scan b cur (ls ++ tail) = scan b (cur ++ ls) tail.
Proof.
  intros Hls. revert cur.
  induction Hls as [|c ls Hc _ IH]; intros cur; simpl.
  - by rewrite app_nil_r.
  - rewrite Hc, IH. by rewrite <- app_assoc.
Qed.

(** The matches of the scan are the delimited runs, in order. *)
Lemma findall_at_runs n : forall rest prev,
  (length rest <= n)%nat ->
  findall_at prev rest
  = map letters (List.filter delimited (scan prev [] rest)).
Proof.
  induction n as [|n IH]; intros rest prev Hn.
  { destruct rest; [|simpl in Hn; lia]. by rewrite findall_at_nil. }
  destruct rest as [|c t]; [by rewrite findall_at_nil|].
  simpl in Hn. destruct (is_ascii_letter c) eqn:Hc.
  - destruct (letters_then_tail t) as (ls & tail & -> & Hls & Htail).
    assert (Hrun : all_letters (c :: ls)) by (by constructor).
    change (c :: ls ++ tail) with ((c :: ls) ++ tail).
    rewrite scan_letters by done. simpl app at 2.
    pose proof (match_here_run prev (c :: ls) tail Hrun
                  ltac:(done) Htail) as Hm.
    assert (Hafter : findall_at (last (c :: ls)) tail
              = map letters (List.filter delimited
                  (match tail with
                   | [] => []
                   | d :: t' => scan (Some d) [] t'
                   end))).
    { destruct tail as [|d t']; [apply findall_at_nil|].
      rewrite findall_at_skip.
      - apply IH. rewrite length_app in Hn. simpl in Hn. lia.
      - apply match_here_stops. done. }
    assert (Hscan : scan prev (c :: ls) tail
              = {| before := prev; letters := c :: ls;
                   after := head tail |}
                :: match tail with
                   | [] => []
                   | d :: t' => scan (Some d) [] t'
                   end).
    { destruct tail as [|d t']; [done|]. simpl.
      by rewrite (Htail d eq_refl). }
    rewrite Hscan. cbn [List.filter]. unfold delimited at 1. simpl.
    destruct (negb (is_word prev) && negb (is_word (head tail))).
    + etrans; [exact (findall_at_match _ _ _ Hm)|].
      rewrite take_app_length, drop_app_length. simpl map.
      by rewrite Hafter.
    + etrans; [exact (findall_at_skip _ _ _ Hm)|].
      rewrite findall_at_inside by done. exact Hafter.
  - rewrite findall_at_skip
      by (apply match_here_stops; by apply stops_cons).
    simpl. rewrite Hc. simpl. apply IH. lia.
Qed.

End RegexFacts.

(** C6 (as amended): the matches of the pattern are the maximal runs of
    ASCII letters that have no word character (letter, digit, underscore)
    next to them, in order; the English-word count is their number.  A run
    that touches a digit, an underscore or a non-ASCII letter is not
    counted. *)
Theorem eng_words_counts_delimited_runs (text : string) :
  Regex.findall (chars text)
  = map Runs.letters
      (List.filter Runs.delimited (Runs.letter_runs (chars text)))
  /\ eng_words text
     = len (List.filter Runs.delimited (Runs.letter_runs (chars text))).
Proof.
  assert (H : Regex.findall (chars text)
              = map Runs.letters
                  (List.filter Runs.delimited (Runs.letter_runs (chars text))))
    by (by apply (findall_at_runs (length (chars text)))).
  split; [exact H|].
  unfold eng_words, len. by rewrite H, length_map.
Qed.

(** C6 (as stated) fails: ["abc123"] has one maximal run of ASCII letters
    and no English word, since the run touches a digit. *)
Lemma eng_words_misses_run_next_to_digit :
  eng_words "abc123" <> len (Runs.letter_runs (chars "abc123")).
Proof. vm_compute. discriminate. Qed.

(** ** The metrics engine *)

(** C8: on the empty document every count is 0, the topic counter and the
    list of ratio pairs are empty and both averages are zero; no division is
    attempted, so nothing is raised. *)
Theorem analyze_empty_document :
  analyze_conversations []
  = Ok {| total_conversations := 0;
          total_sentences := 0;
          english_sentences := 0;
          gujlish_sentences := 0;
          identical_sentences := 0;
          topics := ∅;
          language_mix_stats := [];
          avg_eng_ratio := 0%float;
          avg_guj_ratio := 0%float |}.
Proof. reflexivity. Qed.

(** *** The counters *)

Lemma message_body_counts st message st' :
  counts_add_up st -> message_body st message = Ok st' -> counts_add_up st'.
Proof.
  unfold counts_add_up, message_body. intros [H1 H2].
  destruct (gujlish message) as [g|]; simpl; [|discriminate].
  destruct (english message) as [e|]; simpl; [|discriminate].
  destruct (0 <? total_words g).
  - destruct (truediv (eng_words g) (total_words g)); simpl; [|discriminate].
    destruct (truediv _ (total_words g)); simpl; [|discriminate].
    intros [= <-].
    destruct (are_sentences_identical g e); simpl; lia.
  - intros [= <-].
    destruct (are_sentences_identical g e); simpl; lia.
Qed.

Lemma conversation_body_counts st conversation st' :
  counts_add_up st -> conversation_body st conversation = Ok st' ->
  counts_add_up st'.
Proof.
  unfold conversation_body. intros H.
  destruct (topic conversation) as [name|]; simpl; [|discriminate].
  destruct (conversations conversation) as [messages|]; simpl; [|discriminate].
  apply (for_each_invariant counts_add_up message_body message_body_counts).
  exact H.
Qed.

(** C5: in every Statistics value the engine returns, the identical
    sentences and the others add up to the total, and the count of
    identical sentences is the count of reference sentences. *)
Theorem sentence_counts_add_up data stats :
  analyze_conversations data = Ok stats ->
  english_sentences stats + gujlish_sentences stats = total_sentences stats
  /\ identical_sentences stats = english_sentences stats.
Proof.
  unfold analyze_conversations.
  destruct (for_each conversation_body Locals.init data) as [st|] eqn:Hloop;
    simpl; [|discriminate].
  assert (H : counts_add_up st).
  { eapply (for_each_invariant counts_add_up conversation_body
              conversation_body_counts); [|exact Hloop].
    split; reflexivity. }
  unfold summarize.
  destruct (average (Locals.eng_ratios st)); simpl; [|discriminate].
  destruct (average (Locals.guj_ratios st)); simpl; [|discriminate].
  intros [= <-]. exact H.
Qed.

(** The two-turn sample: one identical sentence, one distinct. *)
Lemma sentence_counts_add_up_witness :
  analyze_conversations cafe_talk = Ok cafe_stats
  /\ (english_sentences cafe_stats + gujlish_sentences cafe_stats
      = total_sentences cafe_stats
      /\ identical_sentences cafe_stats = english_sentences cafe_stats).
Proof.
  split; [vm_compute; reflexivity|].
  apply (sentence_counts_add_up cafe_talk cafe_stats).
  vm_compute; reflexivity.
Defined.

(** *** Totality *)

Lemma for_each_ok {S A} (good : A -> bool) (body : S -> A -> result S) :
  (forall st x, good x = true -> exists st', body st x = Ok st') ->
  forall xs st, forallb good xs = true ->
    exists st', for_each body st xs = Ok st'.
Proof.
  intros Hbody. induction xs as [|x xs IH]; intros st; simpl.
  - eauto.
  - intros [Hx Hxs]%andb_true_iff.
    destruct (Hbody st x Hx) as [st1 ->]. simpl. by apply IH.
Qed.

Lemma for_each_ok_inv {S A} (good : A -> bool) (body : S -> A -> result S) :
  (forall st x st', body st x = Ok st' -> good x = true) ->
  forall xs st st', for_each body st xs = Ok st' -> forallb good xs = true.
Proof.
  intros Hbody. induction xs as [|x xs IH]; intros st st'; simpl; [done|].
  destruct (body st x) as [st1|e] eqn:Hx; simpl; [|discriminate].
  intros H. apply andb_true_iff. split; [by eapply Hbody | by eapply IH].
Qed.

Lemma truediv_ok a b : b <> 0 -> exists x, truediv a b = Ok x.
Proof.
  intros Hb. unfold truediv. apply Z.eqb_neq in Hb. rewrite Hb. eauto.
Qed.

(** The guard [if ratios] keeps the division of the average away from
    zero. *)
Lemma average_ok ratios : exists x, average ratios = Ok x.
Proof.
  destruct ratios as [|r ratios]; simpl; [by eexists|].
  unfold float_truediv, len.
  destruct (Z.of_nat _ =? 0) eqn:H; [|by eexists].
  apply Z.eqb_eq in H. simpl in H. lia.
Qed.

Lemma summarize_ok data st : exists stats, summarize data st = Ok stats.
Proof.
  unfold summarize.
  destruct (average_ok (Locals.eng_ratios st)) as [x ->].
  destruct (average_ok (Locals.guj_ratios st)) as [y ->].
  simpl. eauto.
Qed.

(** The guard [if total_words > 0] keeps both divisions of the ratio away
    from zero. *)
Lemma message_body_ok st message :
  turn_complete message = true -> exists st', message_body st message = Ok st'.
Proof.
  unfold turn_complete, message_body.
  intros [[g Hg]%bool_decide_eq_true [e He]%bool_decide_eq_true]%andb_true_iff.
  rewrite Hg, He. simpl.
  destruct (0 <? total_words g) eqn:Hw; [|by eexists].
  apply Z.ltb_lt in Hw.
  destruct (truediv_ok (eng_words g) (total_words g)) as [x ->]; [lia|].
  destruct (truediv_ok (total_words g - eng_words g) (total_words g))
    as [y ->]; [lia|].
  simpl. eauto.
Qed.

Lemma message_body_ok_inv st message st' :
  message_body st message = Ok st' -> turn_complete message = true.
Proof.
  unfold turn_complete, message_body.
  destruct (gujlish message); simpl; [|discriminate].
  destruct (english message); simpl; [|discriminate].
  done.
Qed.

Lemma conversation_body_ok st conversation :
  topic_complete conversation = true ->
  exists st', conversation_body st conversation = Ok st'.
Proof.
  unfold topic_complete, conversation_body.
  intros [[name Hn]%bool_decide_eq_true Hms]%andb_true_iff.
  rewrite Hn. destruct (conversations conversation) as [messages|]; [|done].
  simpl. by apply (for_each_ok turn_complete message_body message_body_ok).
Qed.

Lemma conversation_body_ok_inv st conversation st' :
  conversation_body st conversation = Ok st' ->
  topic_complete conversation = true.
Proof.
  unfold topic_complete, conversation_body.
  destruct (topic conversation) as [name|]; simpl; [|discriminate].
  destruct (conversations conversation) as [messages|]; simpl; [|discriminate].
  intros H.
  by apply (for_each_ok_inv turn_complete message_body message_body_ok_inv)
    in H.
Qed.

(** C1 (as amended): the engine returns a Statistics value exactly on the
    documents in which every topic object has its [topic] and
    [conversations] keys and every turn object has its [gujlish] and
    [english] keys; a turn whose two texts are empty strings is counted as
    identical and adds no ratio pair. *)
Theorem analyze_total_on_complete_documents data :
  ((exists stats, analyze_conversations data = Ok stats)
   <-> document_complete data = true)
  /\ (forall st who,
        message_body st
          {| speaker := who; gujlish := Some ""%string;
             english := Some ""%string |}
        = Ok (Locals.count_identical (Locals.count_sentence st))).
Proof.
  split; [|reflexivity].
  unfold analyze_conversations, document_complete. split.
  - intros [stats H].
    destruct (for_each conversation_body Locals.init data) as [st|] eqn:Hloop;
      simpl in H; [|discriminate].
    by apply (for_each_ok_inv topic_complete conversation_body
                conversation_body_ok_inv) in Hloop.
  - intros H.
    destruct (for_each_ok topic_complete conversation_body
                conversation_body_ok data Locals.init H) as [st ->].
    simpl. apply summarize_ok.
Qed.

(** C1 (as stated) fails: a turn object without its text keys is not read
    as a pair of empty strings, the subscript raises [KeyError]. *)
Lemma analyze_raises_on_missing_text :
  analyze_conversations (one_topic [bare_turn]) = Raise (KeyError "gujlish")
  /\ analyze_conversations
       (one_topic [{| speaker := None; gujlish := Some "kem chho"%string;
                      english := None |}])
     = Raise (KeyError "english").
Proof. split; reflexivity. Qed.

(** *** Ratio pairs *)

(** What a turn with at least one token appends: the quotients of the two
    word counts by the number of tokens. *)
Lemma message_body_appends_ratios st who g e :
  0 < total_words g ->
  message_body st {| speaker := who; gujlish := Some g; english := Some e |}
  = Ok (Locals.append_ratios
          (PrimFloat.div (float_of_int (eng_words g))
                         (float_of_int (total_words g)))
          (PrimFloat.div (float_of_int (total_words g - eng_words g))
                         (float_of_int (total_words g)))
          ((if are_sentences_identical g e
            then Locals.count_identical else Locals.count_gujlish)
             (Locals.count_sentence st))).
Proof.
  intros Hw. unfold message_body, truediv. simpl.
  destruct (0 <? total_words g) eqn:H; [|apply Z.ltb_ge in H; lia].
  destruct (total_words g =? 0) eqn:H0; [apply Z.eqb_eq in H0; lia|].
  simpl. by destruct (are_sentences_identical g e).
Qed.

(** C3: the mixed text ["don't"] is one token in which the pattern finds
    two words, so the turn emits the pair (2.0, -1.0): the English ratio is
    above 1 and the other ratio is below 0. *)
Theorem ratio_pair_outside_unit_interval :
  total_words "don't" = 1
  /\ eng_words "don't" = 2
  /\ language_mix_stats <$> analyze_conversations
                             (one_topic [turn "don't" "do not"])
     = Ok [(2, -1)]%float
  /\ PrimFloat.ltb 1 2 = true
  /\ PrimFloat.ltb (-1) 0 = true.
Proof. repeat split. Qed.

(** C4 (as amended): the turn is classified as distinct; its four tokens
    are four words of ASCII letters, so the ratio pair is (1.0, 0.0). *)
Theorem coffee_turn_is_distinct_and_all_english :
  are_sentences_identical "Mane ek coffee joie" "I want a coffee" = false
  /\ total_words "Mane ek coffee joie" = 4
  /\ eng_words "Mane ek coffee joie" = 4
  /\ language_mix_stats <$> analyze_conversations
       (one_topic [turn "Mane ek coffee joie" "I want a coffee"])
     = Ok [(1, 0)]%float.
Proof. repeat split. Qed.

(** C4 (as stated) fails: the pair emitted for the turn is not
    (0.25, 0.75), and the pattern does not find one word but four. *)
Lemma coffee_turn_ratio_is_not_a_quarter :
  language_mix_stats <$> analyze_conversations
    (one_topic [turn "Mane ek coffee joie" "I want a coffee"])
  <> Ok [(0.25, 0.75)]%float
  /\ eng_words "Mane ek coffee joie" <> 1.
Proof. split; vm_compute; discriminate. Qed.

(** *** Runs on the store of the process *)

Section ProcessFacts.

Lemma keeps_refl base h : Process.keeps base h h.
Proof. by split. Qed.

Lemma keeps_trans base h1 h2 h3 :
  Process.keeps base h1 h2 -> Process.keeps base h2 h3 ->
  Process.keeps base h1 h3.
Proof. intros [? ?] [? ?]. split; congruence. Qed.

Lemma keeps_alter base f a h :
  (base <= a)%nat -> Process.keeps base h (alter f a h).
Proof.
  intros Ha. split; [apply length_alter | by apply take_alter_ge].
Qed.

(** When the store below [base] was [h], the store still begins with
    [h]. *)
Lemma keeps_prefix base h h3 h' :
  Process.keeps base h3 h' -> take base h3 = h -> h `prefix_of` h'.
Proof.
  intros [_ Htake] <-. rewrite <- Htake.
  exists (drop base h'). by rewrite take_drop.
Qed.

Lemma message_body_agrees base h fr st message :
  Process.represents base h fr st ->
  Process.agrees base (Process.message_body fr message h).2
    (Process.message_body fr message h).1 (message_body st message)
  /\ Process.keeps base h (Process.message_body fr message h).2.
Proof.
  intros (H1 & H2 & H3 & H4 & Ht & He & Hg & Bt & Be & Bg & Nte & Ntg & Neg).
  unfold Process.message_body, message_body.
  unfold Process.bind, Process.lift, Process.update, Process.ret.
  destruct (gujlish message) as [g|]; simpl; [|split; [done|apply keeps_refl]].
  destruct (english message) as [e|]; simpl; [|split; [done|apply keeps_refl]].
  destruct (0 <? total_words g); simpl.
  - unfold truediv. destruct (total_words g =? 0); simpl;
      [split; [done|apply keeps_refl]|].
    split.
    + destruct (are_sentences_identical g e); simpl;
        (repeat split; simpl; try done; try lia;
         repeat (rewrite list_lookup_alter_eq
                 || rewrite list_lookup_alter_ne by congruence);
         rewrite ?Ht, ?He, ?Hg; done).
    + destruct (are_sentences_identical g e); simpl;
        (eapply keeps_trans; apply keeps_alter; done).
  - split; [|apply keeps_refl].
    destruct (are_sentences_identical g e); simpl;
      repeat split; simpl; try done; lia.
Qed.

Lemma for_each_agrees {A} base
    (body : Process.Frame.t -> A -> Process.run Process.Frame.t)
    (body' : Locals.t -> A -> result Locals.t) :
  (forall h fr st x,
     Process.represents base h fr st ->
     Process.agrees base (body fr x h).2 (body fr x h).1 (body' st x)
     /\ Process.keeps base h (body fr x h).2) ->
  forall xs h fr st,
    Process.represents base h fr st ->
    Process.agrees base (Process.for_each body fr xs h).2
      (Process.for_each body fr xs h).1 (for_each body' st xs)
    /\ Process.keeps base h (Process.for_each body fr xs h).2.
Proof.
  intros Hbody. induction xs as [|x xs IH]; intros h fr st Hrep; simpl.
  - split; [done | apply keeps_refl].
  - unfold Process.bind. destruct (Hbody h fr st x Hrep) as [Hx Hk].
    destruct (body fr x h) as [[fr1|e] h1]; simpl in *;
      destruct (body' st x) as [st1|e']; simpl in *; try done.
    destruct (IH h1 fr1 st1 Hx) as [Hxs Hk']. split; [done|].
    by eapply keeps_trans.
Qed.

Lemma conversation_body_agrees base h fr st conversation :
  Process.represents base h fr st ->
  Process.agrees base (Process.conversation_body fr conversation h).2
    (Process.conversation_body fr conversation h).1
    (conversation_body st conversation)
  /\ Process.keeps base h (Process.conversation_body fr conversation h).2.
Proof.
  intros (H1 & H2 & H3 & H4 & Ht & He & Hg & Bt & Be & Bg & Nte & Ntg & Neg).
  unfold Process.conversation_body, conversation_body.
  unfold Process.bind, Process.lift, Process.update.
  destruct (topic conversation) as [name|]; simpl;
    [|split; [done|apply keeps_refl]].
  destruct (conversations conversation) as [messages|]; simpl;
    [|split; [done|by apply keeps_alter]].
  destruct (for_each_agrees base Process.message_body message_body
              (fun h fr st m => message_body_agrees base h fr st m)
              messages
              (alter (Process.counter_add name) (Process.Frame.topics fr) h) fr
              (Locals.count_topic name st)) as [Hxs Hk].
  - repeat split; simpl; try done.
    + by rewrite list_lookup_alter_eq, Ht.
    + by rewrite list_lookup_alter_ne, He.
    + by rewrite list_lookup_alter_ne, Hg.
  - split; [done|]. eapply keeps_trans; [|exact Hk]. by apply keeps_alter.
Qed.

Lemma observe_prefix h h' r seen :
  Process.observe h r = Some seen -> h `prefix_of` h' ->
  Process.observe h' r = Some seen.
Proof.
  intros Hobs Hpre. destruct r as [a|e]; [|done]. simpl in *.
  destruct (h !! a) as [[| | |d]|] eqn:Ha; try done.
  rewrite (prefix_lookup_Some _ _ _ _ Ha Hpre).
  destruct (h !! Process.at_topics d) as [[counts| | |]|] eqn:Ht; try done.
  destruct (h !! Process.at_language_mix_stats d) as [[| |pairs|]|] eqn:Hp;
    try done.
  by rewrite (prefix_lookup_Some _ _ _ _ Ht Hpre),
    (prefix_lookup_Some _ _ _ _ Hp Hpre).
Qed.

(** One run from any store: the objects that were there are kept, and
    what the run leaves is what the engine computes on values. *)
Lemma analyze_on_store h data :
  exists r h',
    Process.analyze_conversations data h = (r, h')
    /\ h `prefix_of` h'
    /\ Process.observe h' r = Some (analyze_conversations data).
Proof.
  unfold Process.analyze_conversations, analyze_conversations.
  unfold Process.bind at 1 2 3. unfold Process.allocate at 1 2 3.
  rewrite !length_app. simpl length.
  set (n := length h).
  set (h3 := ((h ++ [Process.CounterObject ∅]) ++ [Process.FloatList []])
             ++ [Process.FloatList []]).
  assert (Hh3 : h3 = h ++ [Process.CounterObject ∅; Process.FloatList [];
                           Process.FloatList []])
    by (unfold h3; by rewrite <- !app_assoc).
  assert (Hrep : Process.represents n h3
                   (Process.Frame.init n (n + 1) (n + 1 + 1)) Locals.init).
  { rewrite Hh3. unfold n. repeat split; simpl; try lia.
    - by rewrite (list_lookup_middle h _ _ (length h)).
    - rewrite lookup_app_r by lia.
      by replace (length h + 1 - length h)%nat with 1%nat by lia.
    - rewrite lookup_app_r by lia.
      by replace (length h + 1 + 1 - length h)%nat with 2%nat by lia. }
  destruct (for_each_agrees n Process.conversation_body conversation_body
              (fun h fr st c => conversation_body_agrees n h fr st c)
              data h3 _ _ Hrep) as [Hagree Hkeep].
  assert (Hpre : h `prefix_of`
            (Process.for_each Process.conversation_body
               (Process.Frame.init n (n + 1) (n + 1 + 1)) data h3).2).
  { apply (keeps_prefix n h h3 _ Hkeep).
    unfold n. rewrite Hh3. apply take_app_length. }
  unfold Process.bind at 1.
  destruct (Process.for_each Process.conversation_body
              (Process.Frame.init n (n + 1) (n + 1 + 1)) data h3)
    as [[fr|e] h4];
    destruct (for_each conversation_body Locals.init data) as [st|e'];
    simpl in Hagree, Hpre; try done.
  - destruct Hagree
      as (H1 & H2 & H3 & H4 & Ht & He & Hg & Bt & Be & Bg & Nte & Ntg & Neg).
    unfold Process.bind, Process.read_floats, Process.lift, Process.allocate.
    rewrite He, Hg. unfold summarize. simpl.
    destruct (average (Locals.eng_ratios st)) as [x|err]; simpl.
    + destruct (average (Locals.guj_ratios st)) as [y|err]; simpl.
      * eexists _, _. split; [reflexivity|].
        split; [by do 2 apply prefix_app_r|].
        unfold Process.observe.
        rewrite (list_lookup_middle _ [] _ (length (h4 ++ [_])))
          by done.
        cbn [Process.at_topics Process.at_language_mix_stats].
        rewrite <- app_assoc. cbn [app].
        rewrite (lookup_app_l_Some _ _ _ _ Ht).
        rewrite (list_lookup_middle h4 _ _ (length h4)) by done.
        cbn. by rewrite H1, H2, H3, H4.
      * eexists _, _. split; [reflexivity|]. by split.
    + eexists _, _. split; [reflexivity|]. by split.
  - subst. eexists _, _. split; [reflexivity|]. by split.
Qed.

End ProcessFacts.

(** C9: from whatever store earlier invocations have left, two runs of
    the engine on the same document end in the same outcome, the one that
    [analyze_conversations] computes from the document alone: the same
    exception, or two dicts that hold identical Statistics.  The second
    run changes nothing of what the first returned, nor any object that was
    there before. *)
Theorem two_runs_give_identical_statistics h data :
  exists r1 h1 r2 h2,
    Process.analyze_conversations data h = (r1, h1)
    /\ Process.analyze_conversations data h1 = (r2, h2)
    /\ Process.observe h2 r1 = Some (analyze_conversations data)
    /\ Process.observe h2 r2 = Some (analyze_conversations data)
    /\ Process.observe h1 r1 = Process.observe h2 r1
    /\ h `prefix_of` h2.
Proof.
  destruct (analyze_on_store h data) as (r1 & h1 & Hrun1 & Hpre1 & Hobs1).
  destruct (analyze_on_store h1 data) as (r2 & h2 & Hrun2 & Hpre2 & Hobs2).
  exists r1, h1, r2, h2.
  pose proof (observe_prefix h1 h2 r1 _ Hobs1 Hpre2) as Hobs12.
  repeat split; try done.
  - congruence.
  - by etrans.
Qed.

(** Two runs on the two-turn sample, started from a store that already
    holds a list: the dicts lie at addresses 5 and 10, and both show the
    same Statistics once the second run is over. *)
Lemma two_runs_on_cafe_talk :
  let first := Process.analyze_conversations cafe_talk [Process.FloatList []] in
  let second := Process.analyze_conversations cafe_talk first.2 in
  first.1 = Ok 5%nat
  /\ second.1 = Ok 10%nat
  /\ Process.observe second.2 first.1 = Some (Ok cafe_stats)
  /\ Process.observe second.2 second.1 = Some (Ok cafe_stats).
Proof. vm_compute. repeat split. Qed.


(** ** The tabular exporter *)

Section CsvFacts.
Import Csv.

Lemma turn_loop_numbers name convs : forall acc,
  fold_left (turn_body name) convs (acc, Z.of_nat (length acc))
  = let acc' :=
      acc ++ imap (fun k => numbered_row (length acc + k))
                  (map (pair name) convs) in
    (acc', Z.of_nat (length acc')).
Proof.
  induction convs as [|c convs IH]; intros acc; simpl.
  - by rewrite app_nil_r.
  - unfold turn_body at 2. simpl.
    set (acc1 := acc ++ [numbered_row (length acc + 0) (name, c)]).
    assert (Hlen : length acc1 = S (length acc))
      by (unfold acc1; rewrite length_app; simpl; lia).
    replace (acc ++ [_]) with acc1
      by (unfold acc1, numbered_row; simpl; do 3 f_equal; lia).
    replace (Z.of_nat (length acc) + 1) with (Z.of_nat (length acc1))
      by lia.
    rewrite IH. cbv zeta.
    assert (Heq : acc1 ++ imap (fun k => numbered_row (length acc1 + k))
                           (map (pair name) convs)
                  = acc ++ imap (fun k => numbered_row (length acc + k))
                             (map (pair name) (c :: convs))).
    { unfold acc1. rewrite <- app_assoc. simpl. do 2 f_equal.
      apply imap_ext. intros k x _. simpl. f_equal.
      rewrite length_app. simpl. lia. }
    by rewrite Heq.
Qed.

Lemma topic_loop_numbers raw_data : forall acc,
  fold_left topic_body raw_data (acc, Z.of_nat (length acc))
  = let acc' :=
      acc ++ imap (fun k => numbered_row (length acc + k))
                  (flatten raw_data) in
    (acc', Z.of_nat (length acc')).
Proof.
  induction raw_data as [|t raw_data IH]; intros acc; simpl.
  - by rewrite app_nil_r.
  - unfold topic_body at 2. rewrite turn_loop_numbers. simpl.
    cbv zeta. rewrite IH. cbv zeta.
    assert (Heq : forall rows : list (string * TurnRecord),
              (acc ++ imap (fun k => numbered_row (length acc + k)) rows)
              ++ imap (fun k => numbered_row
                         (length (acc ++ imap (fun k => numbered_row
                                     (length acc + k)) rows) + k))
                   (flatten raw_data)
              = acc ++ imap (fun k => numbered_row (length acc + k))
                         (rows ++ flatten raw_data)).
    { intros rows. rewrite imap_app, <- app_assoc. do 2 f_equal.
      apply imap_ext. intros k x _. simpl. f_equal.
      rewrite length_app, length_imap. lia. }
    by rewrite Heq.
Qed.

(** The rows collected by the two loops are the turns of the flattened
    document, in order, the k-th of them (from 1) with [turn_id] k. *)
Lemma collect_turns_numbered raw_data :
  collect_turns raw_data = imap numbered_row (flatten raw_data).
Proof.
  unfold collect_turns.
  change ([], 0) with (@nil turn_data, Z.of_nat (length (@nil turn_data))).
  by rewrite topic_loop_numbers.
Qed.

End CsvFacts.

(** C7: for a document with at least one turn, written to a disk that
    takes the file, the exporter writes the header
    [turn_id,topic,speaker,gujlish,english] and one row per turn of the
    flattened document, in input order; the turn at position k (from 1)
    has [turn_id] k, whatever topic it belongs to. *)
Theorem csv_has_one_numbered_row_per_turn raw_data :
  Csv.flatten raw_data <> [] ->
  Csv.json_to_csv_pandas (Csv.Document raw_data) true
  = [Csv.ToCsv
       {| Csv.columns :=
            ["turn_id"; "topic"; "speaker"; "gujlish"; "english"]%string;
          Csv.rows := imap Csv.numbered_row (Csv.flatten raw_data) |};
     Csv.Printed Csv.Converted]
  /\ length (imap Csv.numbered_row (Csv.flatten raw_data))
     = Csv.turn_count raw_data
  /\ (forall k turn,
        Csv.flatten raw_data !! k = Some turn ->
        Csv.turn_id <$> imap Csv.numbered_row (Csv.flatten raw_data) !! k
        = Some (Z.of_nat k + 1)).
Proof.
  intros Hne. split; [|split].
  - unfold Csv.json_to_csv_pandas. rewrite collect_turns_numbered.
    destruct (Csv.flatten raw_data) as [|turn turns]; [done|]. reflexivity.
  - by rewrite length_imap.
  - intros k turn Hk. by rewrite list_lookup_imap, Hk.
Qed.

(** Three turns under two topics, the second topic without a name: the
    numbering runs on across the topics. *)
Lemma csv_has_one_numbered_row_per_turn_witness :
  Csv.flatten two_topics <> []
  /\ Csv.turn_id <$> Csv.collect_turns two_topics = [1; 2; 3]
  /\ Csv.json_to_csv_pandas (Csv.Document two_topics) true
     = [Csv.ToCsv
          {| Csv.columns :=
               ["turn_id"; "topic"; "speaker"; "gujlish"; "english"]%string;
             Csv.rows := imap Csv.numbered_row (Csv.flatten two_topics) |};
        Csv.Printed Csv.Converted].
Proof.
  split; [discriminate|]. split; [reflexivity|].
  apply (csv_has_one_numbered_row_per_turn two_topics). discriminate.
Defined.

(** C10: when the document has no turn at all, the exporter prints that no
    conversation data was found and writes no file, not even a header. *)
Theorem no_turn_no_csv raw_data disk_ok :
  Csv.turn_count raw_data = 0%nat ->
  Csv.json_to_csv_pandas (Csv.Document raw_data) disk_ok
  = [Csv.Printed Csv.NoConversationData].
Proof.
  unfold Csv.turn_count, Csv.json_to_csv_pandas. intros H.
  rewrite collect_turns_numbered.
  by destruct (Csv.flatten raw_data).
Qed.

(** A topic with an empty list of turns and a topic without the key. *)
Lemma no_turn_no_csv_witness :
  Csv.turn_count no_turns = 0%nat
  /\ Csv.turn_count [] = 0%nat
  /\ Csv.json_to_csv_pandas (Csv.Document no_turns) true
     = [Csv.Printed Csv.NoConversationData].
Proof.
  split; [reflexivity|]. split; [reflexivity|].
  apply (no_turn_no_csv no_turns true). reflexivity.
Defined.

(** ** What the statistics count *)

(** A turn that the loop body accepts changes the locals in one way. *)
Lemma message_body_inv st message st' :
  message_body st message = Ok st' ->
  st' = (match turn_pair message with
         | Some (x, y) => Locals.append_ratios x y
         | None => fun st => st
         end)
          ((if turn_identical message
            then Locals.count_identical else Locals.count_gujlish)
             (Locals.count_sentence st)).
Proof.
  unfold message_body, turn_pair, turn_identical, truediv.
  destruct (gujlish message) as [g|]; simpl; [|discriminate].
  destruct (english message) as [e|]; simpl; [|discriminate].
  destruct (0 <? total_words g) eqn:Hw.
  - apply Z.ltb_lt in Hw.
    destruct (total_words g =? 0) eqn:H0; [apply Z.eqb_eq in H0; lia|].
    cbn. intros [= <-]. by destruct (are_sentences_identical g e).
  - cbn. intros [= <-]. by destruct (are_sentences_identical g e).
Qed.

Lemma conversation_body_inv st conversation st' :
  conversation_body st conversation = Ok st' ->
  exists name messages,
    topic conversation = Some name
    /\ conversations conversation = Some messages
    /\ for_each message_body (Locals.count_topic name st) messages = Ok st'.
Proof.
  unfold conversation_body.
  destruct (topic conversation) as [name|]; simpl; [|discriminate].
  destruct (conversations conversation) as [messages|]; simpl;
    [|discriminate].
  eauto.
Qed.

(** A quantity that every accepted element moves by [step] ends as the
    fold of [step]. *)
Lemma for_each_measure {S A M} (mu : S -> M) (step : M -> A -> M)
    (body : S -> A -> result S) :
  (forall st x st', body st x = Ok st' -> mu st' = step (mu st) x) ->
  forall xs st st',
    for_each body st xs = Ok st' -> mu st' = fold_left step xs (mu st).
Proof.
  intros Hbody. induction xs as [|x xs IH]; intros st st'; simpl.
  - by intros [= <-].
  - destruct (body st x) as [st1|e] eqn:Hx; simpl; [|discriminate].
    intros H. rewrite <- (Hbody _ _ _ Hx). by apply IH.
Qed.

(** A quantity of the locals that only the turns move. *)
Lemma turns_measure {M} (mu : Locals.t -> M) (step : M -> TurnRecord -> M) :
  (forall st message st',
     message_body st message = Ok st' -> mu st' = step (mu st) message) ->
  (forall st name, mu (Locals.count_topic name st) = mu st) ->
  forall data st st',
    for_each conversation_body st data = Ok st' ->
    mu st' = fold_left step (all_turns data) (mu st).
Proof.
  intros Hturn Htopic data st st' H.
  assert (Hbody : forall st c st',
            conversation_body st c = Ok st' ->
            mu st' = fold_left step (default [] (conversations c)) (mu st)).
  { clear - Hturn Htopic.
    intros st c st' (name & messages & _ & -> & H)%conversation_body_inv.
    simpl. rewrite (for_each_measure mu step message_body Hturn _ _ _ H).
    by rewrite Htopic. }
  rewrite (for_each_measure mu
             (fun m c => fold_left step (default [] (conversations c)) m)
             conversation_body Hbody data st st' H).
  unfold all_turns. clear H. generalize (mu st).
  induction data as [|c data IH]; intros m; simpl; [done|].
  by rewrite fold_left_app, IH.
Qed.

(** A quantity of the locals that only the topic names move. *)
Lemma topics_measure {M} (mu : Locals.t -> M) (step : M -> string -> M) :
  (forall st message st',
     message_body st message = Ok st' -> mu st' = mu st) ->
  (forall st name, mu (Locals.count_topic name st) = step (mu st) name) ->
  forall data st st',
    for_each conversation_body st data = Ok st' ->
    mu st' = fold_left step (omap topic data) (mu st).
Proof.
  intros Hturn Htopic data st st' H.
  assert (Hbody : forall st c st',
            conversation_body st c = Ok st' ->
            mu st' = from_option (step (mu st)) (mu st) (topic c)).
  { clear - Hturn Htopic.
    intros st c st' (name & messages & -> & _ & H)%conversation_body_inv.
    simpl.
    rewrite (for_each_measure mu (fun m _ => m) message_body Hturn _ _ _ H).
    rewrite <- Htopic. generalize (mu (Locals.count_topic name st)).
    clear. induction messages; simpl; auto. }
  rewrite (for_each_measure mu
             (fun m c => from_option (step m) m (topic c))
             conversation_body Hbody data st st' H).
  clear H. generalize (mu st).
  induction data as [|c data IH]; intros m; simpl; [done|].
  rewrite IH. by destruct (topic c).
Qed.

Lemma fold_left_count {A} (p : A -> bool) (xs : list A) (n : Z) :
  fold_left (fun m x => if p x then m + 1 else m) xs n
  = n + len (List.filter p xs).
Proof.
  revert n. induction xs as [|x xs IH]; intros n; simpl.
  - unfold len. simpl. lia.
  - rewrite IH. destruct (p x); unfold len; simpl; lia.
Qed.

(** After the loops: what the returned dict holds. *)
Lemma analyze_conversations_inv data stats :
  analyze_conversations data = Ok stats ->
  exists st,
    for_each conversation_body Locals.init data = Ok st
    /\ total_conversations stats = len data
    /\ total_sentences stats = Locals.total_sentences st
    /\ english_sentences stats = Locals.english_sentences st
    /\ gujlish_sentences stats = Locals.gujlish_sentences st
    /\ identical_sentences stats = Locals.identical_sentences st
    /\ topics stats = Locals.topics st
    /\ language_mix_stats stats
       = zip (Locals.eng_ratios st) (Locals.guj_ratios st).
Proof.
  unfold analyze_conversations, summarize.
  destruct (for_each conversation_body Locals.init data) as [st|];
    simpl; [|discriminate].
  destruct (average (Locals.eng_ratios st)); simpl; [|discriminate].
  destruct (average (Locals.guj_ratios st)); simpl; [|discriminate].
  intros [= <-]. exists st. by repeat split.
Qed.

Lemma fold_left_succ {A} (xs : list A) (n : Z) :
  fold_left (fun m _ => m + 1) xs n = n + len xs.
Proof.
  revert n. induction xs as [|x xs IH]; intros n; simpl.
  - unfold len. simpl. lia.
  - rewrite IH. unfold len. simpl. lia.
Qed.

Ltac after_turn H :=
  apply message_body_inv in H; subst;
  destruct (turn_pair _) as [[? ?]|], (turn_identical _); simpl.

Lemma loop_counts_turns data st :
  for_each conversation_body Locals.init data = Ok st ->
  Locals.total_sentences st = len (all_turns data).
Proof.
  intros Hloop.
  rewrite (turns_measure Locals.total_sentences (fun m _ => m + 1))
    with (data := data) (st := Locals.init)
    by (done || (intros ? ? ? H; by after_turn H)).
  by rewrite fold_left_succ.
Qed.

(** X1: the engine counts every topic object and every turn: in the
    Statistics it returns, [total_conversations] is the number of topic
    objects and [total_sentences] the number of turns of the document. *)
Theorem totals_count_topics_and_turns data stats :
  analyze_conversations data = Ok stats ->
  total_conversations stats = len data
  /\ total_sentences stats = len (all_turns data).
Proof.
  intros (st & Hloop & -> & -> & _)%analyze_conversations_inv.
  split; [done|]. by apply loop_counts_turns.
Qed.

(** The sample with two topic names, four turns. *)
Lemma totals_count_topics_and_turns_witness :
  exists stats,
    analyze_conversations market_talk = Ok stats
    /\ total_conversations stats = 3 /\ total_sentences stats = 4.
Proof.
  eexists. split; [vm_compute; reflexivity|].
  eapply (totals_count_topics_and_turns market_talk). vm_compute; reflexivity.
Defined.

(** X2: [identical_sentences] (and with it [english_sentences]) is the
    number of turns whose two texts normalize to the same string, and
    [gujlish_sentences] is the number of the other turns. *)
Theorem sentence_counts_follow_classifier data stats :
  analyze_conversations data = Ok stats ->
  identical_sentences stats = len (List.filter turn_identical (all_turns data))
  /\ english_sentences stats
     = len (List.filter turn_identical (all_turns data))
  /\ gujlish_sentences stats
     = len (List.filter (fun m => negb (turn_identical m)) (all_turns data)).
Proof.
  intros (st & Hloop & _ & _ & -> & -> & -> & _)%analyze_conversations_inv.
  repeat split.
  - rewrite (turns_measure Locals.identical_sentences
               (fun m x => if turn_identical x then m + 1 else m))
      with (data := data) (st := Locals.init)
      by (done || (intros ? ? ? H; by after_turn H)).
    by rewrite fold_left_count.
  - rewrite (turns_measure Locals.english_sentences
               (fun m x => if turn_identical x then m + 1 else m))
      with (data := data) (st := Locals.init)
      by (done || (intros ? ? ? H; by after_turn H)).
    by rewrite fold_left_count.
  - rewrite (turns_measure Locals.gujlish_sentences
               (fun m x => if negb (turn_identical x) then m + 1 else m))
      with (data := data) (st := Locals.init)
      by (done || (intros ? ? ? H; by after_turn H)).
    by rewrite fold_left_count.
Qed.

(** In the sample only the coffee turn has two texts that differ after
    normalization. *)
Lemma sentence_counts_follow_classifier_witness :
  exists stats,
    analyze_conversations market_talk = Ok stats
    /\ identical_sentences stats = 3
    /\ english_sentences stats = 3
    /\ gujlish_sentences stats = 1.
Proof.
  eexists. split; [vm_compute; reflexivity|].
  eapply (sentence_counts_follow_classifier market_talk).
  vm_compute; reflexivity.
Defined.

(** *** The topic counter *)

Lemma named_omap name data :
  len (List.filter (fun n => bool_decide (n = name)) (omap topic data))
  = len (named name data).
Proof.
  unfold named, len. f_equal.
  induction data as [|c data IH]; simpl; [done|].
  change (list_omap TopicRecord string topic data) with (omap topic data).
  destruct (topic c) as [n|]; simpl.
  - destruct (decide (n = name)) as [->|Hne].
    + rewrite !bool_decide_eq_true_2 by done. simpl. by rewrite IH.
    + rewrite !bool_decide_eq_false_2 by congruence. done.
  - done.
Qed.

Lemma count_topic_positive name st :
  counts_positive st -> counts_positive (Locals.count_topic name st).
Proof.
  unfold counts_positive. intros H. simpl.
  apply map_Forall_insert_2; [|done].
  destruct (Locals.topics st !! name) as [v|] eqn:Hv; simpl; [|lia].
  pose proof (map_Forall_lookup_1 _ _ _ _ H Hv) as Hpos. simpl in Hpos. lia.
Qed.

Lemma loop_counts_positive data st st' :
  for_each conversation_body st data = Ok st' ->
  counts_positive st -> counts_positive st'.
Proof.
  intros H Hst.
  refine (for_each_invariant counts_positive conversation_body _
            data st st' Hst H).
  clear. intros st c st' Hst (name & messages & _ & _ & H)%conversation_body_inv.
  refine (for_each_invariant counts_positive message_body _
            messages _ st' (count_topic_positive name st Hst) H).
  clear. intros st m st' Hst H. unfold counts_positive in *.
  by after_turn H.
Qed.

(** X3: the topic counter of the returned Statistics holds, for every
    name, the number of topic objects of the document with that name, and
    has no entry for a name that no topic object carries. *)
Theorem topic_counter_counts_names data stats name :
  analyze_conversations data = Ok stats ->
  topics stats !! name
  = if bool_decide (named name data = [])
    then None
    else Some (len (named name data)).
Proof.
  intros (st & Hloop & _ & _ & _ & _ & _ & -> & _)%analyze_conversations_inv.
  assert (Hcount : default 0 (Locals.topics st !! name)
                   = len (named name data)).
  { pose proof (topics_measure
                  (fun st => default 0 (Locals.topics st !! name))
                  (fun m n => if bool_decide (n = name) then m + 1 else m))
      as Hm.
    rewrite (Hm ltac:(intros ? ? ? H; by after_turn H)) with
      (data := data) (st := Locals.init); [| |exact Hloop].
    - rewrite fold_left_count, named_omap.
      change (Locals.topics Locals.init) with (∅ : gmap string Z).
      rewrite lookup_empty. simpl. lia.
    - intros st0 n. simpl.
      destruct (decide (n = name)) as [->|Hne].
      + by rewrite bool_decide_eq_true_2, lookup_insert_eq.
      + by rewrite bool_decide_eq_false_2, lookup_insert_ne. }
  assert (Hpos : counts_positive st).
  { eapply loop_counts_positive; [exact Hloop|]. apply map_Forall_empty. }
  destruct (Locals.topics st !! name) as [v|] eqn:Hv; simpl in Hcount.
  - pose proof (map_Forall_lookup_1 _ _ _ _ Hpos Hv) as Hv0. simpl in Hv0.
    rewrite bool_decide_eq_false_2; [by rewrite Hcount|].
    intros Hnil. rewrite Hnil in Hcount. unfold len in Hcount. simpl in *. lia.
  - rewrite bool_decide_eq_true_2; [done|].
    destruct (named name data); [done|]. unfold len in Hcount.
    simpl in Hcount. lia.
Qed.

(** "Food" names two topic objects of the sample, "Sport" none. *)
Lemma topic_counter_counts_names_witness :
  exists stats,
    analyze_conversations market_talk = Ok stats
    /\ topics stats !! "Food"%string = Some 2
    /\ topics stats !! "Sport"%string = None.
Proof.
  eexists. split; [vm_compute; reflexivity|]. split.
  - eapply (topic_counter_counts_names market_talk _ "Food").
    vm_compute; reflexivity.
  - eapply (topic_counter_counts_names market_talk _ "Sport").
    vm_compute; reflexivity.
Defined.

(** *** The ratio pairs *)

Lemma fold_left_pairs turns : forall es gs,
  fold_left
    (fun (p : list float * list float) m =>
       match turn_pair m with
       | Some (x, y) => (p.1 ++ [x], p.2 ++ [y])
       | None => p
       end) turns (es, gs)
  = (es ++ (omap turn_pair turns).*1, gs ++ (omap turn_pair turns).*2).
Proof.
  induction turns as [|m turns IH]; intros es gs; simpl.
  - by rewrite !app_nil_r.
  - change (list_omap TurnRecord (float * float)%type turn_pair turns)
      with (omap turn_pair turns).
    destruct (turn_pair m) as [[x y]|]; simpl; rewrite IH; [|done].
    by rewrite <- !app_assoc.
Qed.

(** X4: the list of ratio pairs holds, in input order, one pair for each
    turn whose mixed text has at least one token, made of the two quotients
    by the number of tokens; a turn without a token adds nothing. *)
Theorem ratio_pairs_follow_turns data stats :
  analyze_conversations data = Ok stats ->
  language_mix_stats stats = omap turn_pair (all_turns data).
Proof.
  intros (st & Hloop & _ & _ & _ & _ & _ & _ & ->)%analyze_conversations_inv.
  pose proof (turns_measure
                (fun st => (Locals.eng_ratios st, Locals.guj_ratios st))
                (fun p m => match turn_pair m with
                            | Some (x, y) => (p.1 ++ [x], p.2 ++ [y])
                            | None => p
                            end)) as Hm.
  specialize (Hm ltac:(intros ? ? ? H; by after_turn H) ltac:(done)
                data Locals.init st Hloop).
  simpl in Hm. rewrite fold_left_pairs in Hm. simpl in Hm.
  injection Hm as -> ->. apply zip_fst_snd.
Qed.

(** The sample has four turns and three pairs: the turn of blanks has no
    token. *)
Lemma ratio_pairs_follow_turns_witness :
  exists stats,
    analyze_conversations market_talk = Ok stats
    /\ language_mix_stats stats = [(1, 0); (1, 0); (1, 0)]%float
    /\ len (all_turns market_talk) = 4.
Proof.
  eexists. split; [vm_compute; reflexivity|]. split; [|reflexivity].
  eapply (ratio_pairs_follow_turns market_talk). vm_compute; reflexivity.
Defined.

(** *** The exceptions *)

Lemma for_each_raise {S A} (body : S -> A -> result S) xs : forall st e,
  for_each body st xs = Raise e -> exists st' x, body st' x = Raise e.
Proof.
  induction xs as [|x xs IH]; intros st e; simpl; [discriminate|].
  destruct (body st x) as [st1|e1] eqn:Hx; simpl.
  - apply IH.
  - intros [= <-]. eauto.
Qed.

Lemma message_body_raise st message e :
  message_body st message = Raise e -> is_dataset_key e = true.
Proof.
  unfold message_body, truediv.
  destruct (gujlish message) as [g|]; simpl; [|by intros [= <-]].
  destruct (english message) as [t|]; simpl; [|by intros [= <-]].
  destruct (0 <? total_words g) eqn:Hw; [|discriminate].
  apply Z.ltb_lt in Hw.
  destruct (total_words g =? 0) eqn:H0; [apply Z.eqb_eq in H0; lia|].
  discriminate.
Qed.

Lemma conversation_body_raise st conversation e :
  conversation_body st conversation = Raise e -> is_dataset_key e = true.
Proof.
  unfold conversation_body.
  destruct (topic conversation) as [name|]; simpl; [|by intros [= <-]].
  destruct (conversations conversation) as [messages|]; simpl;
    [|by intros [= <-]].
  intros (st' & m & H)%for_each_raise. by eapply message_body_raise.
Qed.

Lemma analyze_raise_key data e :
  analyze_conversations data = Raise e -> is_dataset_key e = true.
Proof.
  unfold analyze_conversations. intros H.
  destruct (for_each conversation_body Locals.init data) as [st|e1] eqn:Hl;
    simpl in H.
  - destruct (summarize_ok data st) as [stats Hs]. congruence.
  - injection H as <-.
    apply for_each_raise in Hl as (st' & c & Hc).
    by eapply conversation_body_raise.
Qed.

(** X5: whatever the engine raises is the [KeyError] of one of the four
    keys it subscripts ([topic], [conversations], [gujlish], [english]);
    its three divisions are guarded, it never raises
    [ZeroDivisionError]. *)
Theorem analyze_raises_only_key_errors data e :
  analyze_conversations data = Raise e ->
  is_dataset_key e = true /\ e <> ZeroDivisionError.
Proof.
  intros H. apply analyze_raise_key in H. split; [done|]. by intros ->.
Qed.

(** The second topic object of the sample has no [topic] key. *)
Lemma analyze_raises_only_key_errors_witness :
  analyze_conversations two_topics = Raise (KeyError "topic")
  /\ is_dataset_key (KeyError "topic") = true
  /\ KeyError "topic" <> ZeroDivisionError.
Proof.
  split; [reflexivity|].
  apply (analyze_raises_only_key_errors two_topics). reflexivity.
Defined.

(** *** Tokens and words *)

Lemma split_from_nil cur s :
  PyStr.split_from cur s = []
  <-> cur = [] /\ forallb PyStr.isspace s = true.
Proof.
  revert cur. induction s as [|c s IH]; intros cur; simpl.
  - destruct cur; simpl; split; (done || by intros [? _]).
  - destruct (PyStr.isspace c); simpl.
    + split.
      * intros [Hc Hs]%app_eq_nil. apply IH in Hs as [_ Hs].
        by destruct cur.
      * intros [-> Hs]. simpl. apply IH. done.
    + split; [|by intros [_ ?]].
      intros [Hc _]%IH. by destruct cur.
Qed.

(** X6: a mixed text has no token exactly when all its characters are
    whitespace (the empty text included); these are the turns that the
    guard [total_words > 0] keeps out of the ratio lists. *)
Theorem no_token_iff_blank text :
  (total_words text = 0 <-> forallb PyStr.isspace (chars text) = true)
  /\ 0 <= total_words text
  /\ forall who e,
       turn_pair {| speaker := who; gujlish := Some text; english := e |}
       = None
       <-> forallb PyStr.isspace (chars text) = true.
Proof.
  assert (H0 : 0 <= total_words text) by (unfold total_words, len; lia).
  assert (H : total_words text = 0
              <-> forallb PyStr.isspace (chars text) = true).
  { unfold total_words, len, PyStr.split.
    pose proof (split_from_nil [] (chars text)) as Hs.
    destruct (PyStr.split_from [] (chars text)); simpl in *.
    - split; [intros _; by apply Hs | done].
    - split; [lia|]. intros Hb. by destruct Hs as [_ Hs]; specialize (Hs (conj eq_refl Hb)). }
  split; [done|]. split; [done|].
  intros who e. unfold turn_pair. simpl. rewrite <- H.
  destruct (0 <? total_words text) eqn:Hw.
  - apply Z.ltb_lt in Hw. split; [done | lia].
  - apply Z.ltb_ge in Hw. split; [lia | done].
Qed.

Lemma letter_not_space c :
  PyStr.is_ascii_letter c = true -> PyStr.isspace c = false.
Proof. each_char c. Qed.

Lemma space_not_word c :
  PyStr.isspace c = true -> PyStr.is_word_char c = false.
Proof. each_char c. Qed.

Lemma eng_words_runs text :
  eng_words text
  = len (List.filter Runs.delimited (Runs.scan None [] (chars text))).
Proof.
  unfold eng_words, len, Regex.findall.
  rewrite (findall_at_runs (length (chars text))) by done.
  by rewrite length_map.
Qed.

Lemma length_close_le b cur a :
  cur <> [] ->
  (length (List.filter Runs.delimited (Runs.close b cur a)) <= 1)%nat.
Proof. destruct cur; [done|]. simpl. destruct (Runs.delimited _); simpl; lia. Qed.

Lemma length_flush cur : cur <> [] -> length (PyStr.flush cur) = 1%nat.
Proof. by destruct cur. Qed.

Lemma snoc_not_nil {A} (l : list A) x : l ++ [x] <> [].
Proof. by destruct l. Qed.

(** With only whitespace and word characters, every delimited run of
    letters is a whole token. *)
Lemma runs_le_tokens s : forall b cur cur',
  forallb space_or_word s = true ->
  (cur = [] -> cur' = []) ->
  (length (List.filter Runs.delimited (Runs.scan b cur' s))
   <= length (PyStr.split_from cur s))%nat.
Proof.
  induction s as [|c s IH]; intros b cur cur' Hs Hcur; simpl.
  - destruct cur as [|x cur]; [by rewrite Hcur|].
    destruct cur' as [|y cur']; simpl; [lia|].
    destruct (Runs.delimited _); simpl; lia.
  - simpl in Hs. apply andb_true_iff in Hs as [Hc Hs].
    destruct (PyStr.is_ascii_letter c) eqn:Hl.
    + rewrite (letter_not_space c Hl).
      apply IH; [done|]. intros H. by apply snoc_not_nil in H.
    + destruct (PyStr.isspace c) eqn:Hsp.
      * rewrite List.filter_app, !length_app.
        specialize (IH (Some c) [] [] Hs ltac:(done)).
        destruct cur as [|x cur]; [rewrite Hcur by done; simpl; lia|].
        destruct cur' as [|y cur']; [simpl; lia|].
        pose proof (length_close_le b (y :: cur') (Some c) ltac:(done)).
        simpl length at 3. lia.
      * unfold space_or_word in Hc. rewrite Hsp in Hc. simpl in Hc.
        rewrite List.filter_app, length_app.
        assert (Hclose : List.filter Runs.delimited
                           (Runs.close b cur' (Some c)) = []).
        { destruct cur'; [done|]. simpl. unfold Runs.delimited. simpl.
          rewrite Hc. by rewrite andb_false_r. }
        rewrite Hclose. simpl.
        apply IH; [done|]. intros H. by apply snoc_not_nil in H.
Qed.

(** X7: when every character of the mixed text is whitespace or a word
    character (letter, digit, underscore), the English words are at most
    as many as the tokens, so that neither count of the ratio pair is
    negative. *)
Theorem eng_words_at_most_tokens text :
  forallb space_or_word (chars text) = true ->
  0 <= eng_words text <= total_words text
  /\ 0 <= total_words text - eng_words text.
Proof.
  intros H.
  assert (eng_words text <= total_words text).
  { rewrite eng_words_runs. unfold total_words, len, PyStr.split.
    apply inj_le. by apply runs_le_tokens. }
  assert (0 <= eng_words text) by (unfold eng_words, len; lia).
  lia.
Qed.

Lemma eng_words_at_most_tokens_witness :
  forallb space_or_word (chars "2 coffee ane 1 chai_latte") = true
  /\ eng_words "2 coffee ane 1 chai_latte" = 2
  /\ total_words "2 coffee ane 1 chai_latte" = 5
  /\ (0 <= eng_words "2 coffee ane 1 chai_latte"
        <= total_words "2 coffee ane 1 chai_latte"
      /\ 0 <= total_words "2 coffee ane 1 chai_latte"
              - eng_words "2 coffee ane 1 chai_latte").
Proof.
  split; [reflexivity|]. split; [reflexivity|]. split; [reflexivity|].
  apply (eng_words_at_most_tokens "2 coffee ane 1 chai_latte"). reflexivity.
Defined.

(** With only whitespace and ASCII letters, the delimited runs are the
    tokens. *)
Lemma runs_eq_tokens s : forall b cur cur',
  forallb space_or_letter s = true ->
  (cur = [] <-> cur' = []) ->
  Regex.is_word b = false ->
  length (List.filter Runs.delimited (Runs.scan b cur' s))
  = length (PyStr.split_from cur s).
Proof.
  induction s as [|c s IH]; intros b cur cur' Hs Hcur Hb; simpl.
  - destruct cur as [|x cur], cur' as [|y cur']; simpl;
      try done; try (by destruct Hcur as [H1 H2]; (specialize (H1 eq_refl) || specialize (H2 eq_refl))).
    unfold Runs.delimited. simpl. by rewrite Hb.
  - simpl in Hs. apply andb_true_iff in Hs as [Hc Hs].
    destruct (PyStr.is_ascii_letter c) eqn:Hl.
    + rewrite (letter_not_space c Hl).
      apply IH; [done| |done].
      split; intros H; by apply snoc_not_nil in H.
    + unfold space_or_letter in Hc. rewrite Hl, orb_false_r in Hc.
      rewrite Hc. rewrite List.filter_app, !length_app.
      rewrite (IH (Some c) [] []); [|done|done|by apply space_not_word].
      f_equal.
      destruct cur as [|x cur], cur' as [|y cur']; simpl;
        try done; try (by destruct Hcur as [H1 H2]; (specialize (H1 eq_refl) || specialize (H2 eq_refl))).
      unfold Runs.delimited. simpl.
      by rewrite Hb, (space_not_word c Hc).
Qed.

(** X8: a mixed text written with ASCII letters and whitespace only has
    as many English words as tokens: every token of a romanized sentence
    without digits and punctuation counts as English, whatever its
    language. *)
Theorem letters_only_text_is_all_english text :
  forallb space_or_letter (chars text) = true ->
  eng_words text = total_words text.
Proof.
  intros H. rewrite eng_words_runs.
  unfold total_words, len, PyStr.split. f_equal.
  by apply runs_eq_tokens.
Qed.

Lemma letters_only_text_is_all_english_witness :
  forallb space_or_letter (chars "tame kem chho aaje") = true
  /\ total_words "tame kem chho aaje" = 4
  /\ eng_words "tame kem chho aaje" = total_words "tame kem chho aaje".
Proof.
  split; [reflexivity|]. split; [reflexivity|].
  apply (letters_only_text_is_all_english "tame kem chho aaje"). reflexivity.
Defined.

(** *** The report of [main] *)

Lemma percentage_raises part total e :
  percentage part total = Raise e <-> total = 0 /\ e = ZeroDivisionError.
Proof.
  unfold percentage, truediv.
  destruct (total =? 0) eqn:H0; simpl.
  - apply Z.eqb_eq in H0. split; [by intros [= <-] | by intros [_ ->]].
  - apply Z.eqb_neq in H0. split; [discriminate | by intros [? _]].
Qed.

Lemma percentage_ok part total :
  total <> 0 -> exists x, percentage part total = Ok x.
Proof.
  intros H. unfold percentage.
  destruct (truediv_ok part total H) as [q ->]. simpl. eauto.
Qed.

(** What [main] does on a document with all its keys depends on the
    number of its turns only. *)
Lemma main_on_complete data :
  document_complete data = true ->
  if bool_decide (all_turns data = [])
  then main data = Raise ZeroDivisionError
  else exists shown, main data = Ok shown.
Proof.
  intros Hc. unfold main.
  destruct (for_each_ok topic_complete conversation_body
              conversation_body_ok data Locals.init Hc) as [st Hloop].
  destruct (summarize_ok data st) as [stats Hs].
  assert (Ha : analyze_conversations data = Ok stats)
    by (unfold analyze_conversations; by rewrite Hloop).
  rewrite Ha. simpl.
  pose proof Ha as (st' & Hloop' & _ & Ht & _)%analyze_conversations_inv.
  apply loop_counts_turns in Hloop'. rewrite Ht, Hloop'.
  case_bool_decide as Hturns.
  - rewrite Hturns. reflexivity.
  - assert (Hn : len (all_turns data) <> 0).
    { destruct (all_turns data); [done|]. unfold len. simpl. lia. }
    destruct (percentage_ok (english_sentences stats) _ Hn) as [x ->].
    destruct (percentage_ok (gujlish_sentences stats) _ Hn) as [y ->].
    simpl. eauto.
Qed.

Lemma main_raise_key data e :
  document_complete data = false -> main data = Raise e ->
  is_dataset_key e = true.
Proof.
  intros Hc. unfold main.
  destruct (analyze_conversations data) as [stats|e1] eqn:Ha; simpl.
  - pose proof Ha as (st & Hloop & _)%analyze_conversations_inv.
    apply (for_each_ok_inv topic_complete conversation_body
             conversation_body_ok_inv) in Hloop.
    unfold document_complete in Hc. congruence.
  - intros [= <-]. by apply analyze_raise_key in Ha.
Qed.

Lemma main_incomplete data :
  document_complete data = false -> exists e, main data = Raise e.
Proof.
  intros Hc. unfold main.
  destruct (analyze_conversations data) as [stats|e1] eqn:Ha; simpl; [|eauto].
  pose proof Ha as (st & Hloop & _)%analyze_conversations_inv.
  apply (for_each_ok_inv topic_complete conversation_body
           conversation_body_ok_inv) in Hloop.
  unfold document_complete in Hc. congruence.
Qed.

(** X9: [main] dies with [ZeroDivisionError] exactly on the documents that
    have all their keys and no turn at all (the empty document among them):
    the engine returns its Statistics, and the percentage of line 132
    divides by [total_sentences], which is 0.  It gets past its printed
    numbers exactly on the documents with all their keys and at least one
    turn. *)
Theorem main_divides_by_zero_without_turns data :
  (main data = Raise ZeroDivisionError
   <-> document_complete data = true /\ all_turns data = [])
  /\ ((exists shown, main data = Ok shown)
      <-> document_complete data = true /\ all_turns data <> []).
Proof.
  destruct (document_complete data) eqn:Hc.
  - pose proof (main_on_complete data Hc) as Hm.
    case_bool_decide as Hturns.
    + rewrite Hm. split; split; try done.
      * by intros [shown ?].
      * by intros [_ ?].
    + destruct Hm as [shown Hm]. rewrite Hm. split; split; try done.
      * by intros [_ ?].
      * eauto.
  - destruct (main_incomplete data Hc) as [e He].
    pose proof (main_raise_key data e Hc He) as Hk. rewrite He.
    split; split; try (by intros [? _]).
    + intros [= ->]. done.
    + by intros [shown ?].
Qed.

(** *** The normalizer *)

Lemma lower_char_space c :
  PyStr.isspace (PyStr.lower_char c) = PyStr.isspace c.
Proof. each_char c. Qed.

Lemma lower_char_punctuation c :
  PyStr.is_punctuation (PyStr.lower_char c) = PyStr.is_punctuation c.
Proof. each_char c. Qed.

Lemma lstrip_lower s :
  PyStr.lstrip (PyStr.lower s) = PyStr.lower (PyStr.lstrip s).
Proof.
  induction s as [|c s IH]; simpl; [done|].
  rewrite lower_char_space. by destruct (PyStr.isspace c).
Qed.

Lemma strip_lower s :
  PyStr.strip (PyStr.lower s) = PyStr.lower (PyStr.strip s).
Proof.
  unfold PyStr.strip, PyStr.rstrip, PyStr.lower.
  fold (PyStr.lower s). rewrite lstrip_lower. unfold PyStr.lower.
  rewrite <- map_rev. fold (PyStr.lower (rev (PyStr.lstrip s))).
  rewrite lstrip_lower. unfold PyStr.lower. by rewrite map_rev.
Qed.

Lemma head_lstrip s c :
  head (PyStr.lstrip s) = Some c -> PyStr.isspace c = false.
Proof.
  induction s as [|d s IH]; simpl; [done|].
  destruct (PyStr.isspace d) eqn:Hd; [done|]. simpl. by intros [= <-].
Qed.

Lemma last_rev {A} (l : list A) : last (rev l) = head l.
Proof. destruct l as [|x l]; [done|]. simpl. apply last_snoc. Qed.

Lemma head_rev {A} (l : list A) : head (rev l) = last l.
Proof. by rewrite <- (rev_involutive l) at 2; rewrite last_rev. Qed.

(** A trimmed text neither starts nor ends with whitespace. *)
Lemma strip_ends s c :
  head (PyStr.strip s) = Some c \/ last (PyStr.strip s) = Some c ->
  PyStr.isspace c = false.
Proof.
  unfold PyStr.strip, PyStr.rstrip. rewrite head_rev, last_rev.
  intros [H|H]; [|by apply head_lstrip in H].
  assert (Hne : PyStr.lstrip (rev (PyStr.lstrip s)) <> [])
    by (intros Hnil; by rewrite Hnil in H).
  destruct (PyStr.lstrip (rev (PyStr.lstrip s))) as [|d t] eqn:Ht; [done|].
  assert (Hd : PyStr.isspace d = false)
    by (apply (head_lstrip (rev (PyStr.lstrip s))); by rewrite Ht).
  destruct (decide (PyStr.isspace c = false)) as [|Hsp]; [done|].
  exfalso. apply not_false_is_true in Hsp.
  (* the last character of the reversed text is the first of [lstrip s] *)
  destruct (PyStr.lstrip s) as [|a u] eqn:Hu; [done|].
  assert (Ha : PyStr.isspace a = false)
    by (apply (head_lstrip s); by rewrite Hu).
  assert (Hlast : last (rev (a :: u)) = Some a) by (by rewrite last_rev).
  (* [lstrip] removes a prefix only, and never all of a text that ends
     with a character that is no space *)
  clear Hu Hne.
  revert Ht Hlast. generalize (rev (a :: u)). intros l.
  induction l as [|x l IH]; simpl; [done|].
  destruct (PyStr.isspace x) eqn:Hx.
  - intros Ht Hl. apply IH; [done|]. destruct l; [|by rewrite last_cons_cons in Hl].
    simpl in Hl. congruence.
  - intros [= -> ->] Hl.
    assert (last (d :: t) = Some a) by done. congruence.
Qed.

(** X10: when the text, once trimmed, neither starts nor ends with a
    punctuation character, its normal form neither starts nor ends with
    whitespace. *)
Theorem normalize_text_trimmed_without_outer_punctuation text :
  (forall c,
     head (PyStr.strip (chars text)) = Some c
     \/ last (PyStr.strip (chars text)) = Some c ->
     PyStr.is_punctuation c = false) ->
  forall c,
    head (chars (normalize_text text)) = Some c
    \/ last (chars (normalize_text text)) = Some c ->
    PyStr.isspace c = false.
Proof.
  intros Hp c. unfold normalize_text, PyStr.translate_delete.
  rewrite chars_string_of_list, strip_lower.
  pose proof (strip_ends (chars text)) as Hends.
  destruct (PyStr.strip (chars text)) as [|a u] eqn:Hu; simpl.
  { by intros [?|?]. }
  assert (Ha : PyStr.is_punctuation a = false) by (apply Hp; by left).
  rewrite lower_char_punctuation, Ha. simpl.
  intros [[= <-]|Hl].
  - rewrite lower_char_space. apply Hends. by left.
  - destruct (last_is_Some (a :: u)) as [_ [z Hz]]; [done|].
    apply last_Some in Hz as [u' Hz].
    assert (Hzp : PyStr.is_punctuation z = false)
      by (apply Hp; right; rewrite Hz; apply last_snoc).
    assert (Hzs : PyStr.isspace z = false)
      by (apply Hends; right; rewrite Hz; apply last_snoc).
    assert (Hall : PyStr.lower_char a
                   :: List.filter (fun c => negb (PyStr.is_punctuation c))
                        (PyStr.lower u)
                   = List.filter (fun c => negb (PyStr.is_punctuation c))
                       (PyStr.lower (a :: u))).
    { simpl. by rewrite lower_char_punctuation, Ha. }
    rewrite Hall, Hz in Hl. unfold PyStr.lower in Hl.
    rewrite map_app, List.filter_app in Hl. simpl in Hl.
    rewrite lower_char_punctuation, Hzp in Hl. simpl in Hl.
    rewrite last_snoc in Hl. injection Hl as <-.
    by rewrite lower_char_space.
Qed.

Lemma normalize_text_trimmed_without_outer_punctuation_witness :
  (forall c,
     head (PyStr.strip (chars "  Hello, kem chho  ")) = Some c
     \/ last (PyStr.strip (chars "  Hello, kem chho  ")) = Some c ->
     PyStr.is_punctuation c = false)
  /\ normalize_text "  Hello, kem chho  " = "hello kem chho"%string
  /\ (forall c,
        head (chars (normalize_text "  Hello, kem chho  ")) = Some c
        \/ last (chars (normalize_text "  Hello, kem chho  ")) = Some c ->
        PyStr.isspace c = false).
Proof.
  assert (H : forall c,
     head (PyStr.strip (chars "  Hello, kem chho  ")) = Some c
     \/ last (PyStr.strip (chars "  Hello, kem chho  ")) = Some c ->
     PyStr.is_punctuation c = false).
  { intros c [H|H]; vm_compute in H; injection H as <-; reflexivity. }
  split; [exact H|]. split; [reflexivity|].
  exact (normalize_text_trimmed_without_outer_punctuation
           "  Hello, kem chho  " H).
Defined.

(** ** The two exporters *)

Lemma flatten_app d1 d2 :
  Csv.flatten (d1 ++ d2) = Csv.flatten d1 ++ Csv.flatten d2.
Proof. unfold Csv.flatten. by rewrite map_app, concat_app. Qed.

Lemma turn_of_numbered_row k turn :
  turn_of_row (Csv.numbered_row k turn) = turn.
Proof. by destruct turn as [name [who g e]]. Qed.

Lemma renumber_numbered_row n k turn :
  renumber (Z.of_nat n) (Csv.numbered_row k turn)
  = Csv.numbered_row (n + k) turn.
Proof. unfold renumber, Csv.numbered_row. simpl. f_equal. lia. Qed.

(** X11: the [csv]-module exporter leaves a file for every document, with
    the header and one numbered row per turn, a header-only file when there
    is no turn; the pandas exporter leaves the same header and rows when the
    document has a turn, and no file otherwise. *)
Theorem manual_export_agrees_with_pandas raw_data :
  CsvManual.json_to_csv_manual (Csv.Document raw_data) true
  = [CsvManual.Wrote CsvManual.headers
       (imap Csv.numbered_row (Csv.flatten raw_data));
     CsvManual.Printed CsvManual.Converted]
  /\ Csv.json_to_csv_pandas (Csv.Document raw_data) true
     = if bool_decide (Csv.flatten raw_data = [])
       then [Csv.Printed Csv.NoConversationData]
       else [Csv.ToCsv
               {| Csv.columns := CsvManual.headers;
                  Csv.rows := imap Csv.numbered_row (Csv.flatten raw_data) |};
             Csv.Printed Csv.Converted].
Proof.
  split.
  - unfold CsvManual.json_to_csv_manual, CsvManual.written_rows.
    change (fold_left Csv.topic_body raw_data ([], 0)).1
      with (Csv.collect_turns raw_data).
    by rewrite collect_turns_numbered.
  - unfold Csv.json_to_csv_pandas. rewrite collect_turns_numbered.
    by destruct (Csv.flatten raw_data).
Qed.

(** X12: the [turn_id]s of the collected rows are 1, 2, ..., n for the n
    turns of the document: each turn has an id of its own. *)
Theorem turn_ids_run_from_one raw_data :
  Csv.turn_id <$> Csv.collect_turns raw_data
  = seqZ 1 (Z.of_nat (Csv.turn_count raw_data))
  /\ NoDup (Csv.turn_id <$> Csv.collect_turns raw_data).
Proof.
  assert (H : Csv.turn_id <$> Csv.collect_turns raw_data
              = seqZ 1 (Z.of_nat (Csv.turn_count raw_data))).
  { rewrite collect_turns_numbered. unfold Csv.turn_count.
    apply list_eq. intros k.
    rewrite list_lookup_fmap, list_lookup_imap.
    destruct (Csv.flatten raw_data !! k) as [turn|] eqn:Hk; simpl.
    - apply lookup_lt_Some in Hk. symmetry.
      rewrite lookup_seqZ. split; lia.
    - apply lookup_ge_None in Hk. symmetry. apply lookup_seqZ_ge. lia. }
  split; [done|]. rewrite H. apply NoDup_seqZ.
Qed.

(** X13: nothing of a turn is lost in its row: read back, the collected
    rows give the turns of the document with their topic names, in input
    order. *)
Theorem rows_read_back_as_turns raw_data :
  turn_of_row <$> Csv.collect_turns raw_data = Csv.flatten raw_data.
Proof.
  rewrite collect_turns_numbered. apply list_eq. intros k.
  rewrite list_lookup_fmap, list_lookup_imap.
  destruct (Csv.flatten raw_data !! k) as [turn|]; simpl; [|done].
  by rewrite turn_of_numbered_row.
Qed.

(** X14: the rows of two documents put one after the other are the rows of
    the first followed by the rows of the second, whose [turn_id]s go on
    from the number of turns of the first. *)
Theorem rows_of_appended_documents d1 d2 :
  Csv.collect_turns (d1 ++ d2)
  = Csv.collect_turns d1
    ++ (renumber (Z.of_nat (Csv.turn_count d1)) <$> Csv.collect_turns d2).
Proof.
  rewrite !collect_turns_numbered, flatten_app, imap_app. f_equal.
  rewrite fmap_imap. apply imap_ext. intros k turn _. simpl.
  by rewrite renumber_numbered_row.
Qed.

(** ** The averages *)

Lemma analyze_averages_inv data stats :
  analyze_conversations data = Ok stats ->
  exists st,
    for_each conversation_body Locals.init data = Ok st
    /\ average (Locals.eng_ratios st) = Ok (avg_eng_ratio stats)
    /\ average (Locals.guj_ratios st) = Ok (avg_guj_ratio stats).
Proof.
  unfold analyze_conversations, summarize.
  destruct (for_each conversation_body Locals.init data) as [st|];
    simpl; [|discriminate].
  destruct (average (Locals.eng_ratios st)) eqn:He; simpl; [|discriminate].
  destruct (average (Locals.guj_ratios st)) eqn:Hg; simpl; [|discriminate].
  intros [= <-]. exists st. simpl. by rewrite He, Hg.
Qed.

Lemma loop_ratio_lists data st :
  for_each conversation_body Locals.init data = Ok st ->
  Locals.eng_ratios st = (omap turn_pair (all_turns data)).*1
  /\ Locals.guj_ratios st = (omap turn_pair (all_turns data)).*2.
Proof.
  intros Hloop.
  pose proof (turns_measure
                (fun st => (Locals.eng_ratios st, Locals.guj_ratios st))
                (fun p m => match turn_pair m with
                            | Some (x, y) => (p.1 ++ [x], p.2 ++ [y])
                            | None => p
                            end)) as Hm.
  specialize (Hm ltac:(intros ? ? ? H; by after_turn H) ltac:(done)
                data Locals.init st Hloop).
  simpl in Hm. rewrite fold_left_pairs in Hm. simpl in Hm.
  by injection Hm as -> ->.
Qed.

(** X15: when the returned list of ratio pairs is empty, as it is when
    no mixed text of the document has a token, both averages of the
    returned Statistics are zero: the guard [if eng_ratios] keeps the mean
    from dividing by the length 0. *)
Theorem averages_are_zero_without_pairs data stats :
  analyze_conversations data = Ok stats ->
  language_mix_stats stats = [] ->
  avg_eng_ratio stats = 0%float /\ avg_guj_ratio stats = 0%float.
Proof.
  intros Ha Hnil.
  pose proof Ha as (st & Hloop & He & Hg)%analyze_averages_inv.
  pose proof Ha as (st' & Hloop' & _ & _ & _ & _ & _ & _ & Hmix)
                     %analyze_conversations_inv.
  assert (st' = st) as -> by congruence.
  destruct (loop_ratio_lists data st Hloop) as [Hes Hgs].
  rewrite Hes, Hgs, zip_fst_snd in Hmix. rewrite Hnil in Hmix.
  rewrite Hes, <- Hmix in He. rewrite Hgs, <- Hmix in Hg.
  simpl in He, Hg. by injection He as <-; injection Hg as <-.
Qed.

(** Two turns with all keys and blank mixed texts. *)
Lemma averages_are_zero_without_pairs_witness :
  exists stats,
    analyze_conversations blank_talk = Ok stats
    /\ total_sentences stats = 2
    /\ language_mix_stats stats = []
    /\ avg_eng_ratio stats = 0%float /\ avg_guj_ratio stats = 0%float.
Proof.
  eexists. split; [vm_compute; reflexivity|].
  split; [reflexivity|]. split; [reflexivity|].
  eapply (averages_are_zero_without_pairs blank_talk);
    vm_compute; reflexivity.
Defined.
